(** * Moonwell tokens ATQ module: a shallow embedding of [src/main.mts]

    The module resolves a subgraph URL for a chain id, pages through the
    [markets] query with a timestamp cursor, drops markets whose token symbol
    is unusable and maps the others to contract tags.

    Conventions of the embedding.
    - A JavaScript string is the list of its UTF-16 code units ([N]); string
      literals of the source are written [lit "..."].
    - [createdTimestamp] and the HTTP status are integers ([Z]); a JavaScript
      number that can also be [-Infinity] (the value of [Math.max()] on no
      argument) has type [number].
    - A call that can throw returns a [Completion]: [Normal v] or [Abrupt e],
      where [e] is the thrown value.
    - The network is a [Transport]: the response delivered to the n-th
      request.  Every request that is sent is recorded in the [World].
      A rejected [fetch] promise and a body that is not JSON are outside the
      model: the transport always delivers a status and a parsed body.
    - [console.log] and [console.error] output is not recorded.
    - The [while] loop of [returnTags] is run with fuel; [None] means that the
      fuel ran out before the loop ended. *)

From Stdlib Require Import String Ascii DecimalString.
From Stdlib Require Import ZArith NArith Lia Bool List Sorted.
Import ListNotations.

Local Open Scope N_scope.

(** ** JavaScript strings *)

Module JS.

Definition jsstring := list N.

(** A source literal, one code unit per ASCII character. *)
Definition lit (s : string) : jsstring :=
  map N_of_ascii (list_ascii_of_string s).

Definition ch (a : ascii) : N := N_of_ascii a.

Definition in_range (lo hi c : N) : bool := (lo <=? c) && (c <=? hi).

(** WhiteSpace and LineTerminator code points of ECMAScript: what
    [String.prototype.trim] strips and [Number] skips. *)
Definition isWhiteSpace (c : N) : bool :=
  in_range 9 13 c || (c =? 32) || (c =? 160) || (c =? 5760)
  || in_range 8192 8202 c || (c =? 8232) || (c =? 8233) || (c =? 8239)
  || (c =? 8287) || (c =? 12288) || (c =? 65279).

Fixpoint dropWhile (p : N -> bool) (s : jsstring) : jsstring :=
  match s with
  | [] => []
  | c :: t => if p c then dropWhile p t else s
  end.

(** [String.prototype.trim] *)
Definition trim (s : jsstring) : jsstring :=
  rev (dropWhile isWhiteSpace (rev (dropWhile isWhiteSpace s))).

Fixpoint eqb (s t : jsstring) : bool :=
  match s, t with
  | [], [] => true
  | c :: s', d :: t' => (c =? d) && eqb s' t'
  | _, _ => false
  end.

(** [String.prototype.substring(start, end)] with integer arguments: both are
    clamped to [0, length] and swapped when [start > end]. *)
Definition substring (s : jsstring) (i j : Z) : jsstring :=
  let len := Z.of_nat (length s) in
  let a := Z.min (Z.max i 0) len in
  let b := Z.min (Z.max j 0) len in
  let from := Z.to_nat (Z.min a b) in
  let to := Z.to_nat (Z.max a b) in
  firstn (to - from) (skipn from s).

(** [Number.prototype.toString] of an integer below 1e21: its decimal digits. *)
Definition Z_toString (z : Z) : jsstring :=
  lit (NilZero.string_of_int (Z.to_int z)).

(** *** [String.prototype.replace] with a string pattern *)

Fixpoint startsWith (p s : jsstring) : bool :=
  match p, s with
  | [], _ => true
  | c :: p', d :: s' => (c =? d) && startsWith p' s'
  | _ :: _, [] => false
  end.

(** The text before and after the first occurrence of [p] in [s]. *)
Fixpoint splitFirst (p s : jsstring) : option (jsstring * jsstring) :=
  if startsWith p s then Some ([], skipn (length p) s)
  else match s with
       | [] => None
       | c :: t =>
           match splitFirst p t with
           | Some (before, after) => Some (c :: before, after)
           | None => None
           end
       end.

(** GetSubstitution for a string pattern (no captures): [$$], [$&], [$`] and
    [$'] are expanded, every other character of the template is copied. *)
Fixpoint GetSubstitution (matched before after templ : jsstring) : jsstring :=
  match templ with
  | [] => []
  | c :: rest =>
      if c =? ch "$" then
        match rest with
        | [] => [c]
        | d :: rest' =>
            if d =? ch "$" then ch "$" :: GetSubstitution matched before after rest'
            else if d =? ch "&" then matched ++ GetSubstitution matched before after rest'
            else if d =? ch "`" then before ++ GetSubstitution matched before after rest'
            else if d =? ch "'" then after ++ GetSubstitution matched before after rest'
            else c :: GetSubstitution matched before after rest
        end
      else c :: GetSubstitution matched before after rest
  end.

Definition replace (s pattern replacement : jsstring) : jsstring :=
  match splitFirst pattern s with
  | None => s
  | Some (before, after) =>
      before ++ GetSubstitution pattern before after replacement ++ after
  end.

(** *** [encodeURIComponent] *)

Definition isDigit (c : N) : bool := in_range 48 57 c.
Definition isAlpha (c : N) : bool := in_range 65 90 c || in_range 97 122 c.

(** uriUnreserved: letters, digits and [- _ . ! ~ * ' ( )]. *)
Definition isUnreserved (c : N) : bool :=
  isAlpha c || isDigit c
  || existsb (N.eqb c) (lit "-_.!~*'()").

Definition hexDigit (n : N) : N :=
  if n <? 10 then 48 + n else 55 + n.

(** [%XY], with [X] the high and [Y] the low four bits of the octet. *)
Definition percent (byte : N) : jsstring :=
  [ch "%"; hexDigit ((byte / 16) mod 16); hexDigit (byte mod 16)].

Definition utf8 (cp : N) : list N :=
  if cp <? 128 then [cp]
  else if cp <? 2048 then [192 + cp / 64; 128 + cp mod 64]
  else if cp <? 65536 then
    [224 + cp / 4096; 128 + (cp / 64) mod 64; 128 + cp mod 64]
  else
    [240 + cp / 262144; 128 + (cp / 4096) mod 64;
     128 + (cp / 64) mod 64; 128 + cp mod 64].

Definition isLeadSurrogate (c : N) : bool := in_range 55296 56319 c.
Definition isTrailSurrogate (c : N) : bool := in_range 56320 57343 c.

Definition escape (cp : N) : jsstring := concat (map percent (utf8 cp)).

(** [None] is the URIError thrown on an unpaired surrogate. *)
Fixpoint encodeURIComponent (s : jsstring) : option jsstring :=
  match s with
  | [] => Some []
  | c :: rest =>
      if isUnreserved c then option_map (cons c) (encodeURIComponent rest)
      else if isTrailSurrogate c then None
      else if isLeadSurrogate c then
        match rest with
        | [] => None
        | d :: rest' =>
            if isTrailSurrogate d then
              option_map
                (app (escape (65536 + (c - 55296) * 1024 + (d - 56320))))
                (encodeURIComponent rest')
            else None
        end
      else option_map (app (escape c)) (encodeURIComponent rest)
  end.

(** [String.prototype.isWellFormed]: no unpaired surrogate. *)
Fixpoint isWellFormed (s : jsstring) : bool :=
  match s with
  | [] => true
  | c :: rest =>
      if isTrailSurrogate c then false
      else if isLeadSurrogate c then
        match rest with
        | [] => false
        | d :: rest' => isTrailSurrogate d && isWellFormed rest'
        end
      else isWellFormed rest
  end.

(** *** [isNaN(Number(s))] for a string [s]

    [Number] applied to a string is [NaN] exactly when the string, with
    surrounding white space removed, is neither empty nor a
    StrNumericLiteral. *)

Fixpoint span (p : N -> bool) (s : jsstring) : jsstring * jsstring :=
  match s with
  | [] => ([], [])
  | c :: t => if p c then let (a, b) := span p t in (c :: a, b) else ([], s)
  end.

Definition isNil (s : jsstring) : bool :=
  match s with [] => true | _ => false end.

Definition stripSign (s : jsstring) : jsstring :=
  match s with
  | c :: t => if (c =? ch "+") || (c =? ch "-") then t else s
  | [] => s
  end.

(** ExponentPart, optional, followed by the end of the string. *)
Definition isExponentOpt (s : jsstring) : bool :=
  match s with
  | [] => true
  | c :: t =>
      ((c =? ch "e") || (c =? ch "E"))
      && (let (ds, rest) := span isDigit (stripSign t) in
          negb (isNil ds) && isNil rest)
  end.

Definition isUnsignedDecimal (s : jsstring) : bool :=
  eqb s (lit "Infinity")
  || (let (int, r1) := span isDigit s in
      match r1 with
      | c :: t =>
          if c =? ch "." then
            let (frac, r2) := span isDigit t in
            negb (isNil int && isNil frac) && isExponentOpt r2
          else negb (isNil int) && isExponentOpt r1
      | [] => negb (isNil int)
      end).

Definition isHexDigit (c : N) : bool :=
  isDigit c || in_range 65 70 c || in_range 97 102 c.

Definition isNonDecimal (s : jsstring) : bool :=
  match s with
  | z :: k :: ds =>
      (z =? ch "0") && negb (isNil ds)
      && (if (k =? ch "x") || (k =? ch "X") then forallb isHexDigit ds
          else if (k =? ch "o") || (k =? ch "O") then forallb (in_range 48 55) ds
          else if (k =? ch "b") || (k =? ch "B") then forallb (in_range 48 49) ds
          else false)
  | _ => false
  end.

Definition isNaN_Number (s : jsstring) : bool :=
  let t := trim s in
  negb (isNil t || isUnsignedDecimal (stripSign t) || isNonDecimal t).

(** *** Numbers and thrown values *)

Inductive number := NegInfinity | Int (z : Z).

Definition max2 (a b : number) : number :=
  match a, b with
  | NegInfinity, _ => b
  | _, NegInfinity => a
  | Int x, Int y => Int (Z.max x y)
  end.

(** [Math.max(...xs)] *)
Definition Math_max (xs : list Z) : number :=
  fold_left max2 (map Int xs) NegInfinity.

(** A thrown value: an error object with its [name] and [message], or
    anything else. *)
Inductive Thrown :=
| ErrorObject (name message : jsstring)
| OtherValue.

Definition Error (message : jsstring) : Thrown :=
  ErrorObject (lit "Error") message.

(** [Error.prototype.toString] *)
Definition Error_toString (name message : jsstring) : jsstring :=
  if isNil name then message
  else if isNil message then name
  else name ++ lit ": " ++ message.

Inductive Completion (A : Type) :=
| Normal (a : A)
| Abrupt (e : Thrown).
Arguments Normal {A} a.
Arguments Abrupt {A} e.

End JS.
Import JS.

Arguments ch : simpl never.
Arguments lit : simpl never.

(** ** The module [main.mts] *)

Local Open Scope Z_scope.

(** [SUBGRAPH_URLS]: chain id and its [decentralized] URL template.  The keys
    are integer indices in ascending order, which is also the order in which
    [Object.keys] lists them. *)
Definition SUBGRAPH_URLS : list (jsstring * jsstring) :=
  [ (lit "1284",
     lit "https://gateway.thegraph.com/api/[api-key]/subgraphs/id/DQhrdUHwspQf3hSjDtyfS6uqq9YiKoLF3Ut3U9os2HK");
    (lit "1285",
     lit "https://gateway.thegraph.com/api/[api-key]/subgraphs/id/8ayELti1UNCNCWuvwSwapjh4mvvCejeXsk4PmsWBmQ82");
    (lit "8453",
     lit "https://gateway.thegraph.com/api/[api-key]/subgraphs/id/33ex1ExmYQtwGVwri1AP3oMFPGSce6YbocBP7fWbsBrg") ].

(** [SUBGRAPH_URLS] is an object literal, so a property read that finds no own
    key continues in [Object.prototype]. *)
Definition Object_prototype_keys : list jsstring :=
  map lit
    [ "constructor"; "__defineGetter__"; "__defineSetter__"; "hasOwnProperty";
      "__lookupGetter__"; "__lookupSetter__"; "isPrototypeOf";
      "propertyIsEnumerable"; "toString"; "valueOf"; "__proto__";
      "toLocaleString" ]%string.

Inductive Property :=
| Undefined
| Urls (decentralized : jsstring)
| Inherited.

(** [SUBGRAPH_URLS[key]] *)
Definition SUBGRAPH_URLS_get (key : jsstring) : Property :=
  match find (fun kv => JS.eqb (fst kv) key) SUBGRAPH_URLS with
  | Some (_, decentralized) => Urls decentralized
  | None =>
      if existsb (JS.eqb key) Object_prototype_keys then Inherited
      else Undefined
  end.

Definition falsy (p : Property) : bool :=
  match p with Undefined => true | _ => false end.

(** [Array.prototype.join] *)
Fixpoint join (sep : jsstring) (xs : list jsstring) : jsstring :=
  match xs with
  | [] => []
  | [x] => x
  | x :: rest => x ++ sep ++ join sep rest
  end.

Record Token := { id : jsstring; name : jsstring; symbol : jsstring }.

Record Market := { outputToken : Token; createdTimestamp : Z }.

Record GraphQLData := { markets : option (list Market) }.

Record GraphQLResponse := {
  data : option GraphQLData;
  errors : option (list jsstring)
}.

(** What [fetch] resolves to: [response.ok], [response.status] and the value
    of [response.json()]. *)
Record Response := { ok : bool; status : Z; json : GraphQLResponse }.

(** The variable parts of a request: the URL and the [lastTimestamp] variable
    of the query. *)
Record Request := { req_url : jsstring; req_lastTimestamp : number }.

Definition Transport := nat -> Response.

Record World := { transport : Transport; sent : list Request }.

Definition fetch (w : World) (rq : Request) : Response * World :=
  (transport w (length (sent w)),
   {| transport := transport w; sent := sent w ++ [rq] |}).

Record ContractTag := {
  Contract_Address : jsstring;
  Public_Name_Tag : jsstring;
  Project_Name : jsstring;
  UI_Website_Link : jsstring;
  Public_Note : jsstring
}.

(** [isError]: an object with a string [message]. *)
Definition isError (e : Thrown) : bool :=
  match e with ErrorObject _ _ => true | OtherValue => false end.

(** [`${e}`] of a thrown error object. *)
Definition Thrown_toString (e : Thrown) : jsstring :=
  match e with
  | ErrorObject n m => Error_toString n m
  | OtherValue => []
  end.

(** [[^>]*>] at the start of [s]. *)
Fixpoint closesTag (s : jsstring) : bool :=
  match s with
  | [] => false
  | c :: t => if (c =? ch ">")%N then true else closesTag t
  end.

(** [/<[^>]*>/.test(s)] *)
Fixpoint containsHtml (s : jsstring) : bool :=
  match s with
  | [] => false
  | c :: t => ((c =? ch "<")%N && closesTag t) || containsHtml t
  end.

Definition containsInvalidValue (text : jsstring) : bool :=
  let containsHtml := containsHtml text in
  let isEmpty := JS.eqb (trim text) [] in
  isEmpty || containsHtml.

Definition truncateString (text : jsstring) (maxLength : Z) : jsstring :=
  if Z.of_nat (length text) >? maxLength then
    substring text 0 (maxLength - 3) ++ lit "..."
  else text.

(** [fetchData]: one request, then the checks on the response. *)
Definition fetchData (w : World) (subgraphUrl : jsstring) (lastTimestamp : number)
  : Completion (list Market) * World :=
  let (response, w') :=
    fetch w {| req_url := subgraphUrl; req_lastTimestamp := lastTimestamp |} in
  if negb (ok response) then
    (Abrupt (Error (lit "HTTP error: " ++ Z_toString (status response))), w')
  else
    let result := json response in
    match errors result with
    | Some _ =>
        (Abrupt (Error (lit "GraphQL errors occurred: see logs for details.")), w')
    | None =>
        match data result with
        | None => (Abrupt (Error (lit "No markets data found.")), w')
        | Some d =>
            match markets d with
            | None => (Abrupt (Error (lit "No markets data found.")), w')
            | Some ms => (Normal ms, w')
            end
        end
    end.

Definition prepareUrl (chainId apiKey : jsstring) : Completion jsstring :=
  let urls := SUBGRAPH_URLS_get chainId in
  if falsy urls || isNaN_Number chainId then
    let supportedChainIds := join (lit ", ") (map fst SUBGRAPH_URLS) in
    Abrupt (Error (lit "Unsupported or invalid Chain ID provided: " ++ chainId
                   ++ lit ". Only the following values are accepted: "
                   ++ supportedChainIds))
  else
    match urls with
    | Urls decentralized =>
        match encodeURIComponent apiKey with
        | Some key => Normal (replace decentralized (lit "[api-key]") key)
        | None => Abrupt (ErrorObject (lit "URIError") (lit "URI malformed"))
        end
    | _ =>
        Abrupt (ErrorObject (lit "TypeError")
                  (lit "Cannot read properties of undefined (reading 'replace')"))
    end.

(** The body of the [map] callback of [transformMarketsToTags]. *)
Definition makeTag (chainId : jsstring) (market : Market) : ContractTag :=
  let maxNameLength := 44 in
  let truncatedNameText := truncateString (symbol (outputToken market)) maxNameLength in
  {| Contract_Address := lit "eip155:" ++ chainId ++ lit ":" ++ id (outputToken market);
     Public_Name_Tag := truncatedNameText ++ lit " Token";
     Project_Name := lit "Moonwell";
     UI_Website_Link := lit "https://moonwell.fi/";
     Public_Note := lit "Moonwell's " ++ symbol (outputToken market) ++ lit " ("
                    ++ name (outputToken market) ++ lit ") token contract." |}.

(** The [forEach] of [transformMarketsToTags]: one step on the pair
    [(validMarkets, rejectedSymbols)]. *)
Definition sortMarket (acc : list Market * list jsstring) (market : Market)
  : list Market * list jsstring :=
  let (validMarkets, rejectedSymbols) := acc in
  let symbolInvalid := containsInvalidValue (symbol (outputToken market)) in
  if symbolInvalid then
    (validMarkets,
     rejectedSymbols ++
       [lit "Market: " ++ id (outputToken market)
        ++ lit " rejected due to invalid symbol - Symbol: "
        ++ symbol (outputToken market)])
  else (validMarkets ++ [market], rejectedSymbols).

Definition transformMarketsToTags (chainId : jsstring) (markets : list Market)
  : list ContractTag :=
  let (validMarkets, rejectedSymbols) := fold_left sortMarket markets ([], []) in
  map (makeTag chainId) validMarkets.

(** The variables of [returnTags] that the loop updates. *)
Record LoopState := {
  allTags : list ContractTag;
  lastTimestamp : number;
  isMore : bool
}.

(** The [catch] clause of the loop. *)
Definition rethrow (error : Thrown) : Thrown :=
  if isError error then
    Error (lit "Failed fetching data: " ++ Thrown_toString error)
  else Error (lit "An unknown error occurred during fetch operation.").

(** [while (isMore) { try { ... } catch ... } return allTags] *)
Fixpoint while_isMore (fuel : nat) (chainId url : jsstring) (st : LoopState) (w : World)
  : option (Completion (list ContractTag)) * World :=
  if negb (isMore st) then (Some (Normal (allTags st)), w)
  else
    match fuel with
    | O => (None, w)
    | S fuel' =>
        match fetchData w url (lastTimestamp st) with
        | (Abrupt error, w') => (Some (Abrupt (rethrow error)), w')
        | (Normal markets, w') =>
            let tags := transformMarketsToTags chainId markets in
            let allTags' := allTags st ++ tags in
            let isMore' := Z.of_nat (length markets) =? 1000 in
            let lastTimestamp' :=
              if isMore' then Math_max (map createdTimestamp markets)
              else lastTimestamp st in
            while_isMore fuel' chainId url
              {| allTags := allTags'; lastTimestamp := lastTimestamp'; isMore := isMore' |}
              w'
        end
    end.

Definition returnTags (fuel : nat) (chainId apiKey : jsstring) (w : World)
  : option (Completion (list ContractTag)) * World :=
  match prepareUrl chainId apiKey with
  | Abrupt e => (Some (Abrupt e), w)
  | Normal url =>
      while_isMore fuel chainId url
        {| allTags := []; lastTimestamp := Int 0; isMore := true |} w
  end.

(** A fresh world: nothing sent yet. *)
Definition start (t : Transport) : World := {| transport := t; sent := [] |}.

(** A successful response carrying one page of markets. *)
Definition page (ms : list Market) : Response :=
  {| ok := true; status := 200;
     json := {| data := Some {| markets := Some ms |}; errors := None |} |}.

(** The transport that answers the n-th request with the n-th response of a
    script, and with an empty page once the script is used up. *)
Definition scripted (rs : list Response) : Transport :=
  fun n => nth n rs (page []).

(** ** Vocabulary of the statements

    Predicates on strings, responses and runs in which the properties of the
    module are stated, and the sample data of the examples. *)

(** A string made of white space only; the empty string is one. *)
Definition WhitespaceOnly (s : jsstring) : Prop :=
  Forall (fun c => isWhiteSpace c = true) s.

(** A ['<'] followed, at any distance, by a ['>']. *)
Definition HasAngleBrackets (s : jsstring) : Prop :=
  exists a b c, s = a ++ ch "<" :: b ++ ch ">" :: c.

Definition validMarket (m : Market) : bool :=
  negb (containsInvalidValue (symbol (outputToken m))).

(** A market whose id and name hold markup and whose symbol is plain. *)
Definition markupMarket : Market :=
  {| outputToken := {| id := lit "<script>0x1</script>";
                       name := lit "<b>Moonwell GLMR</b>";
                       symbol := lit "mGLMR" |};
     createdTimestamp := 1650000000 |}.

(** The characters [encodeURIComponent] can produce. *)
Definition isUriSafe (c : N) : bool := isUnreserved c || (c =? ch "%")%N.

Definition placeholder : jsstring := lit "[api-key]".

Definition gateway : jsstring := lit "https://gateway.thegraph.com/api/".

Definition supportedChainIds : list jsstring := map fst SUBGRAPH_URLS.

Definition URIError : Thrown := ErrorObject (lit "URIError") (lit "URI malformed").

(** [sub] occurs in [s]. *)
Definition Contains (s sub : jsstring) : Prop := exists a b, s = a ++ sub ++ b.

Definition unsupportedMessage (chainId : jsstring) : jsstring :=
  lit "Unsupported or invalid Chain ID provided: " ++ chainId
  ++ lit ". Only the following values are accepted: 1284, 1285, 8453".

(** The response that the next request will receive. *)
Definition nextResponse (w : World) : Response := transport w (length (sent w)).

(** The world after one more request. *)
Definition advance (w : World) (url : jsstring) (cursor : number) : World :=
  {| transport := transport w;
     sent := sent w ++ [{| req_url := url; req_lastTimestamp := cursor |}] |}.

(** A successful response without an [errors] field that carries [ms]. *)
Definition MarketsOf (r : Response) (ms : list Market) : Prop :=
  ok r = true /\ errors (json r) = None /\
  exists d, data (json r) = Some d /\ markets d = Some ms.

(** The [data] field, or the [markets] list in it, is missing. *)
Definition DataAbsent (r : Response) : Prop :=
  data (json r) = None \/ exists d, data (json r) = Some d /\ markets d = None.

(** The three ways a response makes [fetchData] throw. *)
Definition Failing (r : Response) : Prop :=
  ok r = false \/ errors (json r) <> None \/ DataAbsent r.

(** The error that [fetchData] throws on a failing response. *)
Definition responseError (r : Response) : Thrown :=
  if negb (ok r) then Error (lit "HTTP error: " ++ Z_toString (status r))
  else match errors (json r) with
       | Some _ => Error (lit "GraphQL errors occurred: see logs for details.")
       | None => Error (lit "No markets data found.")
       end.

(** A successful response with a page of markets and an empty [errors] list. *)
Definition emptyErrorsResponse : Response :=
  {| ok := true; status := 200;
     json := {| data := Some {| markets := Some [markupMarket] |};
                errors := Some [] |} |}.

(** A page that makes the loop ask for another one. *)
Definition fullPage (ms : list Market) : Prop := Z.of_nat (length ms) = 1000.

(** The cursor after a full page. *)
Definition nextCursor (ms : list Market) : number :=
  Math_max (map createdTimestamp ms).

(** The transport answers the requests number [n], [n + 1], ... with these
    pages, in this order. *)
Fixpoint Delivers (t : Transport) (n : nat) (pages : list (list Market)) : Prop :=
  match pages with
  | [] => True
  | p :: rest => MarketsOf (t n) p /\ Delivers t (S n) rest
  end.

(** The cursors of the requests that fetch [pages], the first one being [c]. *)
Fixpoint cursors (c : number) (pages : list (list Market)) : list number :=
  match pages with
  | [] => []
  | p :: rest => c :: cursors (nextCursor p) rest
  end.

(** The cursor after the full pages [pages], starting from [c]. *)
Definition cursorAfter (c : number) (pages : list (list Market)) : number :=
  fold_left (fun _ p => nextCursor p) pages c.

Definition request (url : jsstring) (c : number) : Request :=
  {| req_url := url; req_lastTimestamp := c |}.

(** A market of the Moonbeam deployment, created at [stamp]. *)
Definition demoMarket (stamp : Z) : Market :=
  {| outputToken := {| id := lit "0x091608f4e4a15335145be0a279483c0f8e4c7955";
                       name := lit "Moonwell GLMR";
                       symbol := lit "mGLMR" |};
     createdTimestamp := stamp |}.

(** [n] markets created at [from + 1], ..., [from + n]. *)
Definition demoPage (from : Z) (n : nat) : list Market :=
  map (fun k => demoMarket (from + Z.of_nat k)) (seq 1 n).

(** The Moonbeam URL for the api key ["key"]. *)
Definition demoUrl : jsstring :=
  lit "https://gateway.thegraph.com/api/key/subgraphs/id/DQhrdUHwspQf3hSjDtyfS6uqq9YiKoLF3Ut3U9os2HK".

(** An HTTP 500 response. *)
Definition serverError : Response :=
  {| ok := false; status := 500;
     json := {| data := None; errors := None |} |}.

(** The line that [transformMarketsToTags] pushes on [rejectedSymbols] for a
    market with an invalid symbol. *)
Definition rejectLine (market : Market) : jsstring :=
  lit "Market: " ++ id (outputToken market)
  ++ lit " rejected due to invalid symbol - Symbol: "
  ++ symbol (outputToken market).

(** The characters of the URL templates outside the placeholder, and those of
    an encoded key. *)
Definition isUrlChar (c : N) : bool :=
  isUriSafe c || (c =? ch ":")%N || (c =? ch "/")%N.

(** [a < b] on cursors. *)
Definition number_lt (a b : number) : Prop :=
  match a, b with
  | NegInfinity, Int _ => True
  | Int x, Int y => x < y
  | _, NegInfinity => False
  end.

(** The [first] argument of [GET_MARKETS_QUERY]. *)
Definition pageSize : nat := Z.to_nat 1000.

(** [createdTimestamp_gt: $lastTimestamp] *)
Definition createdAfter (c : number) (m : Market) : bool :=
  match c with
  | NegInfinity => true
  | Int z => z <? createdTimestamp m
  end.

(** What [GET_MARKETS_QUERY] asks the subgraph for, when [db] lists the
    markets of the subgraph by ascending [createdTimestamp]: the first
    [pageSize] markets created after the cursor. *)
Definition answer (db : list Market) (c : number) : list Market :=
  firstn pageSize (filter (createdAfter c) db).

(** Each page is the answer of the subgraph to the cursor that the loop sends
    for it: [c] for the first page, then the cursor left by the page before. *)
Fixpoint Answers (db : list Market) (c : number) (pages : list (list Market)) : Prop :=
  match pages with
  | [] => True
  | p :: rest => p = answer db c /\ Answers db (nextCursor p) rest
  end.

(** Every market of a page was created after the cursor sent for the page. *)
Fixpoint Honest (c : number) (pages : list (list Market)) : Prop :=
  match pages with
  | [] => True
  | p :: rest =>
      Forall (fun m => createdAfter c m = true) p /\ Honest (nextCursor p) rest
  end.

(** Markets listed by strictly ascending [createdTimestamp]. *)
Definition Ascending (db : list Market) : Prop :=
  StronglySorted (fun a b => createdTimestamp a < createdTimestamp b) db.

(** The cursor of the request number [n] of a loop that is served by the
    subgraph [db]: 0, then the cursor left by the answer before. *)
Fixpoint cursorAt (db : list Market) (n : nat) : number :=
  match n with
  | O => Int 0
  | S k => nextCursor (answer db (cursorAt db k))
  end.

(** The transport of a subgraph that holds [db] and answers each request of
    the loop as [GET_MARKETS_QUERY] asks. *)
Definition subgraph (db : list Market) : Transport :=
  fun n => page (answer db (cursorAt db n)).

(** [db] cut at the cursor [c]: [old] was created at [c] or before, [new]
    after [c]. *)
Definition CutAt (c : Z) (old new : list Market) : Prop :=
  Forall (fun m => createdTimestamp m <= c) old /\
  Forall (fun m => c < createdTimestamp m) new.


(** ** Sanity checks *)

Example trim_example : trim (lit "  a b ") = lit "a b".
Proof. reflexivity. Qed.

Example encode_example :
  encodeURIComponent (lit "a/b&c$d") = Some (lit "a%2Fb%26c%24d").
Proof. reflexivity. Qed.

(** ["é"], ["€"] and the surrogate pair of U+1F600. *)
Example encode_utf8_example :
  map encodeURIComponent [[233%N]; [8364%N]; [55357%N; 56832%N]; [56832%N]]
  = [Some (lit "%C3%A9"); Some (lit "%E2%82%AC"); Some (lit "%F0%9F%98%80"); None].
Proof. reflexivity. Qed.

Example replace_example :
  replace (lit "a[k]b[k]") (lit "[k]") (lit "x$&$$y") = lit "ax[k]$yb[k]".
Proof. reflexivity. Qed.

Example number_examples :
  map isNaN_Number [lit "1284"; lit " 12.5e3 "; lit ""; lit "0x1F"; lit "-Infinity";
                    lit "constructor"; lit "12a"; lit "."; lit "1e"; lit "-0x10"]
  = [false; false; false; false; false; true; true; true; true; true].
Proof. reflexivity. Qed.

Example prepareUrl_example :
  prepareUrl (lit "8453") (lit "k/1") =
  Normal (lit "https://gateway.thegraph.com/api/k%2F1/subgraphs/id/33ex1ExmYQtwGVwri1AP3oMFPGSce6YbocBP7fWbsBrg").
Proof. reflexivity. Qed.

Example prepareUrl_inherited_key :
  prepareUrl (lit "constructor") (lit "k") =
  Abrupt (Error (lit "Unsupported or invalid Chain ID provided: constructor. Only the following values are accepted: 1284, 1285, 8453")).
Proof. reflexivity. Qed.

(** ** Facts about the string operations *)

Section StringFacts.

Lemma eqb_eq (s t : jsstring) : JS.eqb s t = true <-> s = t.
Proof.
  revert t; induction s as [|c s IH]; intros [|d t]; simpl; split;
    try congruence; try reflexivity.
  - intros H. apply andb_true_iff in H as [Hc Hs].
    apply N.eqb_eq in Hc. apply IH in Hs. congruence.
  - intros H. injection H as -> ->.
    rewrite N.eqb_refl. simpl. now apply IH.
Qed.

Lemma eqb_refl (s : jsstring) : JS.eqb s s = true.
Proof. now apply eqb_eq. Qed.

Lemma eqb_neq (s t : jsstring) : JS.eqb s t = false <-> s <> t.
Proof.
  rewrite <- eqb_eq. destruct (JS.eqb s t); split; congruence.
Qed.

Lemma dropWhile_nil p s : dropWhile p s = [] <-> forallb p s = true.
Proof.
  induction s as [|c s IH]; simpl; [tauto|].
  destruct (p c); simpl; [exact IH|]. split; discriminate.
Qed.

(** A string that [dropWhile] leaves non-empty starts with a character that
    fails the test. *)
Lemma dropWhile_head p s c t : dropWhile p s = c :: t -> p c = false.
Proof.
  induction s as [|d s IH]; simpl; [discriminate|].
  destruct (p d) eqn:E; [exact IH|]. intros H; injection H as -> _. exact E.
Qed.

Lemma forallb_rev {A} (p : A -> bool) l : forallb p (rev l) = forallb p l.
Proof.
  induction l as [|a l IH]; simpl; [reflexivity|].
  rewrite forallb_app, IH. simpl. rewrite andb_true_r. apply andb_comm.
Qed.

(** [text.trim() === ""] holds exactly for the strings made of white space
    only, the empty string among them. *)
Lemma trim_empty (s : jsstring) :
  JS.eqb (trim s) [] = true <-> forallb isWhiteSpace s = true.
Proof.
  rewrite eqb_eq. unfold trim. split.
  - intros H.
    assert (H1 : dropWhile isWhiteSpace (rev (dropWhile isWhiteSpace s)) = []).
    { apply (f_equal (@rev N)) in H. rewrite rev_involutive in H. exact H. }
    apply dropWhile_nil in H1. rewrite forallb_rev in H1.
    destruct (dropWhile isWhiteSpace s) as [|c t] eqn:E.
    + now apply dropWhile_nil.
    + apply dropWhile_head in E. simpl in H1.
      rewrite E in H1. discriminate.
  - intros H. apply dropWhile_nil in H. rewrite H. reflexivity.
Qed.

Lemma closesTag_spec (s : jsstring) :
  closesTag s = true <-> In (ch ">") s.
Proof.
  induction s as [|c s IH]; simpl; [split; [discriminate|tauto]|].
  destruct (N.eqb_spec c (ch ">")) as [->|Hne].
  - split; auto.
  - rewrite IH. split; [auto|]. intros [H|H]; [congruence|exact H].
Qed.

Lemma substring_from_0 (s : jsstring) (j : Z) :
  (0 <= j <= Z.of_nat (length s))%Z ->
  substring s 0 j = firstn (Z.to_nat j) s.
Proof.
  intros H. unfold substring.
  rewrite (Z.max_l 0 0) by lia.
  rewrite (Z.min_l 0) by lia.
  rewrite (Z.max_l j 0) by lia.
  rewrite (Z.min_l j) by lia.
  rewrite (Z.min_l 0 j) by lia.
  rewrite (Z.max_r 0 j) by lia.
  change (Z.to_nat 0) with 0%nat.
  rewrite Nat.sub_0_r. reflexivity.
Qed.

End StringFacts.

(** ** Validation and truncation *)

Lemma containsHtml_spec (s : jsstring) :
  containsHtml s = true <-> HasAngleBrackets s.
Proof.
  induction s as [|c s IH]; simpl.
  - split; [discriminate|]. intros (a & b & d & H).
    destruct a; discriminate.
  - rewrite orb_true_iff, andb_true_iff, IH, closesTag_spec, N.eqb_eq.
    split.
    + intros [[-> Hin]|(a & b & d & ->)].
      * apply in_split in Hin as (b & d & ->). now exists [], b, d.
      * now exists (c :: a), b, d.
    + intros (a & b & d & H). destruct a as [|x a]; simpl in H.
      * injection H as -> ->. left. split; [reflexivity|].
        apply in_or_app. right. now left.
      * injection H as -> ->. right. now exists a, b, d.
Qed.

Lemma containsInvalidValue_spec (s : jsstring) :
  containsInvalidValue s = true <-> WhitespaceOnly s \/ HasAngleBrackets s.
Proof.
  unfold containsInvalidValue, WhitespaceOnly.
  rewrite orb_true_iff, trim_empty, containsHtml_spec, forallb_forall, Forall_forall.
  reflexivity.
Qed.

Lemma fold_sortMarket (ms : list Market) (valid : list Market) (rej : list jsstring) :
  fst (fold_left sortMarket ms (valid, rej)) = valid ++ filter validMarket ms.
Proof.
  revert valid rej; induction ms as [|m ms IH]; intros valid rej; simpl.
  - now rewrite app_nil_r.
  - unfold validMarket at 1.
    destruct (containsInvalidValue (symbol (outputToken m))); simpl.
    + apply IH.
    + rewrite IH, <- app_assoc. reflexivity.
Qed.

Lemma transformMarketsToTags_filter (chainId : jsstring) (ms : list Market) :
  transformMarketsToTags chainId ms = map (makeTag chainId) (filter validMarket ms).
Proof.
  unfold transformMarketsToTags.
  pose proof (fold_sortMarket ms [] []) as H.
  destruct (fold_left sortMarket ms ([], [])) as [valid rej].
  simpl in H. now rewrite H.
Qed.

Lemma transformMarketsToTags_app (chainId : jsstring) (xs ys : list Market) :
  transformMarketsToTags chainId (xs ++ ys)
  = transformMarketsToTags chainId xs ++ transformMarketsToTags chainId ys.
Proof.
  now rewrite !transformMarketsToTags_filter, filter_app, map_app.
Qed.

(** C3: [truncateString s 44] is [s] when [s] has at most 44 code units;
    otherwise it has exactly 44 code units, the last three are ["..."] and the
    first 41 are the first 41 of [s]. *)
Theorem truncateString_44 (s : jsstring) :
  ((length s <= 44)%nat -> truncateString s 44 = s) /\
  ((44 < length s)%nat ->
     length (truncateString s 44) = 44%nat /\
     skipn 41 (truncateString s 44) = lit "..." /\
     firstn 41 (truncateString s 44) = firstn 41 s).
Proof.
  unfold truncateString. split; intros H.
  - destruct (Z.gtb_spec (Z.of_nat (length s)) 44) as [Hgt|_]; [lia|reflexivity].
  - destruct (Z.gtb_spec (Z.of_nat (length s)) 44) as [_|Hle]; [|lia].
    rewrite substring_from_0 by lia.
    change (Z.to_nat (44 - 3)) with 41%nat.
    assert (Hlen : length (firstn 41 s) = 41%nat)
      by (rewrite length_firstn; lia).
    repeat split.
    + rewrite length_app, Hlen. reflexivity.
    + rewrite skipn_app, Hlen, skipn_all2 by lia. reflexivity.
    + rewrite firstn_app, Hlen, firstn_firstn. simpl. now rewrite app_nil_r.
Qed.

Lemma truncateString_44_witness :
  truncateString (lit "mGLMR") 44 = lit "mGLMR" /\
  length (truncateString (lit "A wrapped token symbol that is far too long to fit") 44)
  = 44%nat.
Proof.
  split.
  - apply (proj1 (truncateString_44 (lit "mGLMR"))). vm_compute. lia.
  - apply (proj2 (truncateString_44
                    (lit "A wrapped token symbol that is far too long to fit"))).
    vm_compute. lia.
Defined.

(** C4: [transformMarketsToTags] drops exactly the markets whose symbol is
    empty, is made of white space only, or has a ['<'] followed later by a
    ['>']; each of the other markets gives one tag, in place. *)
Theorem transformMarketsToTags_excludes (chainId : jsstring) (ms : list Market) :
  (forall m,
     validMarket m = false <->
     symbol (outputToken m) = [] \/ WhitespaceOnly (symbol (outputToken m))
     \/ HasAngleBrackets (symbol (outputToken m))) /\
  transformMarketsToTags chainId ms = map (makeTag chainId) (filter validMarket ms) /\
  length (transformMarketsToTags chainId ms)
  = length (filter validMarket ms).
Proof.
  split; [|split].
  - intros m. unfold validMarket. rewrite negb_false_iff, containsInvalidValue_spec.
    split; [tauto|]. intros [H|H]; [|exact H].
    left. rewrite H. constructor.
  - apply transformMarketsToTags_filter.
  - now rewrite transformMarketsToTags_filter, length_map.
Qed.

Lemma transformMarketsToTags_one (chainId : jsstring) (m : Market) :
  transformMarketsToTags chainId [m]
  = if containsInvalidValue (symbol (outputToken m)) then [] else [makeTag chainId m].
Proof.
  rewrite transformMarketsToTags_filter. simpl. unfold validMarket.
  now destruct (containsInvalidValue (symbol (outputToken m))).
Qed.

(** C10: whether a market is dropped depends on its symbol only.  Two markets
    with the same symbol are both kept or both dropped, whatever their id, name
    and timestamp are and wherever they stand in the page; a market with markup
    in its id and name and a valid symbol is kept. *)
Theorem exclusion_depends_on_symbol_only
  (chainId : jsstring) (m1 m2 : Market) (before after : list Market) :
  symbol (outputToken m1) = symbol (outputToken m2) ->
  (transformMarketsToTags chainId [m1] = [] <->
   transformMarketsToTags chainId [m2] = []) /\
  length (transformMarketsToTags chainId (before ++ m1 :: after))
  = length (transformMarketsToTags chainId (before ++ m2 :: after)) /\
  transformMarketsToTags chainId [markupMarket] = [makeTag chainId markupMarket].
Proof.
  intros Hsym. split; [|split].
  - rewrite !transformMarketsToTags_one, Hsym.
    destruct (containsInvalidValue (symbol (outputToken m2)));
      split; congruence.
  - rewrite !transformMarketsToTags_filter, !length_map, !filter_app, !length_app.
    simpl. assert (Hv : validMarket m1 = validMarket m2)
      by (unfold validMarket; now rewrite Hsym).
    rewrite Hv. now destruct (validMarket m2).
  - reflexivity.
Qed.

Lemma exclusion_depends_on_symbol_only_witness :
  let m1 := {| outputToken := {| id := lit "0xAAA"; name := lit "One"; symbol := lit "<i>x</i>" |};
               createdTimestamp := 1 |} in
  let m2 := {| outputToken := {| id := lit "0xBBB"; name := lit "Two"; symbol := lit "<i>x</i>" |};
               createdTimestamp := 2 |} in
  transformMarketsToTags (lit "1284") [m1] = [] <->
  transformMarketsToTags (lit "1284") [m2] = [].
Proof.
  intros m1 m2.
  apply (proj1 (exclusion_depends_on_symbol_only (lit "1284") m1 m2 [] [] eq_refl)).
Defined.

(** ** The endpoint resolver *)

Section Builtins.

(** Induction on a string two code units at a time, for the functions that
    read a surrogate pair. *)
Lemma jsstring_pair_ind (P : jsstring -> Prop) :
  P [] ->
  (forall c, P [c]) ->
  (forall c d s, P s -> P (d :: s) -> P (c :: d :: s)) ->
  forall s, P s.
Proof.
  intros H0 H1 H2 s.
  enough (H : P s /\ forall c, P (c :: s)) by apply H.
  induction s as [|d s [IHs IHc]]; split; auto.
Qed.

Lemma hexDigit_unreserved (n : N) : (n < 16)%N -> isUnreserved (hexDigit n) = true.
Proof.
  intros H. unfold hexDigit.
  assert (Hn : In n (map N.of_nat (seq 0 16))).
  { apply in_map_iff. exists (N.to_nat n). split; [lia|]. apply in_seq. lia. }
  repeat (destruct Hn as [<-|Hn]; [reflexivity|]). destruct Hn.
Qed.

Lemma percent_safe (b : N) : forallb isUriSafe (percent b) = true.
Proof.
  unfold percent. cbn [forallb]. unfold isUriSafe at 2 3.
  rewrite !hexDigit_unreserved; [reflexivity| |].
  - apply N.mod_lt. discriminate.
  - apply N.mod_lt. discriminate.
Qed.

Lemma escape_safe (cp : N) : forallb isUriSafe (escape cp) = true.
Proof.
  unfold escape. induction (utf8 cp) as [|b bs IH]; [reflexivity|].
  cbn [map concat]. rewrite forallb_app, percent_safe, IH. reflexivity.
Qed.

Lemma option_map_Some {A B} (f : A -> B) (o : option A) (b : B) :
  option_map f o = Some b -> exists a, o = Some a /\ b = f a.
Proof.
  destruct o as [a|]; cbn; [|discriminate].
  intros [= <-]. now exists a.
Qed.

Lemma encodeURIComponent_safe (s e : jsstring) :
  encodeURIComponent s = Some e -> forallb isUriSafe e = true.
Proof.
  revert e. induction s as [| c | c d s IHs IHd] using jsstring_pair_ind; intros e.
  - intros [= <-]. reflexivity.
  - cbn [encodeURIComponent]. destruct (isUnreserved c) eqn:Hu.
    + intros [= <-]. cbn [forallb]. unfold isUriSafe. now rewrite Hu.
    + destruct (isTrailSurrogate c); [discriminate|].
      destruct (isLeadSurrogate c); [discriminate|].
      intros H. apply option_map_Some in H as (e' & [= <-] & ->).
      rewrite app_nil_r. apply escape_safe.
  - change (encodeURIComponent (c :: d :: s)) with
      (if isUnreserved c then option_map (cons c) (encodeURIComponent (d :: s))
       else if isTrailSurrogate c then None
       else if isLeadSurrogate c then
         if isTrailSurrogate d then
           option_map (app (escape (65536 + (c - 55296) * 1024 + (d - 56320))%N))
             (encodeURIComponent s)
         else None
       else option_map (app (escape c)) (encodeURIComponent (d :: s))).
    destruct (isUnreserved c) eqn:Hu.
    + intros H. apply option_map_Some in H as (e' & He' & ->).
      cbn [forallb]. unfold isUriSafe at 1. rewrite Hu. now apply IHd.
    + destruct (isTrailSurrogate c); [discriminate|].
      destruct (isLeadSurrogate c).
      * destruct (isTrailSurrogate d); [|discriminate].
        intros H. apply option_map_Some in H as (e' & He' & ->).
        rewrite forallb_app, escape_safe. now apply IHs.
      * intros H. apply option_map_Some in H as (e' & He' & ->).
        rewrite forallb_app, escape_safe. now apply IHd.
Qed.

Lemma unreserved_below_128 (c : N) : isUnreserved c = true -> (c < 128)%N.
Proof.
  unfold isUnreserved, isAlpha, isDigit, in_range.
  change (lit "-_.!~*'()") with [45; 95; 46; 33; 126; 42; 39; 40; 41]%N.
  cbn [existsb].
  repeat rewrite ?orb_true_iff, ?andb_true_iff, ?N.leb_le, ?N.eqb_eq.
  lia.
Qed.

Lemma unreserved_not_surrogate (c : N) :
  isUnreserved c = true ->
  isTrailSurrogate c = false /\ isLeadSurrogate c = false.
Proof.
  intros H. apply unreserved_below_128 in H.
  unfold isTrailSurrogate, isLeadSurrogate, in_range.
  split; apply andb_false_iff; left; apply N.leb_gt; lia.
Qed.

(** Carries an equivalence [_ = None <-> _] through [option_map]. *)
Ltac none_iff IH :=
  let I1 := fresh in let I2 := fresh in let H := fresh in
  destruct IH as [I1 I2]; split; intros H;
  [ try discriminate; auto
  | try (specialize (I2 H); discriminate); auto ].

(** [encodeURIComponent] throws exactly on the strings that are not well
    formed. *)
Lemma encodeURIComponent_None (s : jsstring) :
  encodeURIComponent s = None <-> isWellFormed s = false.
Proof.
  induction s as [| c | c d s IHs IHd] using jsstring_pair_ind.
  - split; discriminate.
  - cbn. destruct (isUnreserved c) eqn:Hu.
    + destruct (unreserved_not_surrogate c Hu) as [-> ->]. split; congruence.
    + destruct (isTrailSurrogate c), (isLeadSurrogate c); split; congruence.
  - change (encodeURIComponent (c :: d :: s)) with
      (if isUnreserved c then option_map (cons c) (encodeURIComponent (d :: s))
       else if isTrailSurrogate c then None
       else if isLeadSurrogate c then
         if isTrailSurrogate d then
           option_map (app (escape (65536 + (c - 55296) * 1024 + (d - 56320))%N))
             (encodeURIComponent s)
         else None
       else option_map (app (escape c)) (encodeURIComponent (d :: s))).
    change (isWellFormed (c :: d :: s)) with
      (if isTrailSurrogate c then false
       else if isLeadSurrogate c then isTrailSurrogate d && isWellFormed s
       else isWellFormed (d :: s)).
    destruct (isUnreserved c) eqn:Hu.
    + destruct (unreserved_not_surrogate c Hu) as [-> ->].
      destruct (encodeURIComponent (d :: s)); cbn [option_map]; none_iff IHd.
    + destruct (isTrailSurrogate c); [tauto|].
      destruct (isLeadSurrogate c).
      * destruct (isTrailSurrogate d); cbn [andb]; [|tauto].
        destruct (encodeURIComponent s); cbn [option_map]; none_iff IHs.
      * destruct (encodeURIComponent (d :: s)); cbn [option_map]; none_iff IHd.
Qed.

Lemma GetSubstitution_plain (matched before after templ : jsstring) :
  ~ In (ch "$") templ ->
  GetSubstitution matched before after templ = templ.
Proof.
  induction templ as [|c rest IH]; [reflexivity|].
  intros Hnot. cbn [GetSubstitution].
  destruct (N.eqb_spec c (ch "$")) as [->|_].
  - exfalso. apply Hnot. now left.
  - f_equal. apply IH. intros H. apply Hnot. now right.
Qed.

Lemma safe_not_In (c : N) (e : jsstring) :
  forallb isUriSafe e = true -> isUriSafe c = false -> ~ In c e.
Proof.
  intros He Hc Hin. rewrite forallb_forall in He.
  apply He in Hin. congruence.
Qed.

Lemma startsWith_head (c : N) (p s : jsstring) :
  startsWith (c :: p) s = true -> In c s.
Proof.
  destruct s as [|d s]; cbn; [discriminate|].
  intros H. apply andb_true_iff in H as [H _]. apply N.eqb_eq in H. now left.
Qed.

(** A pattern whose first character is not in the string does not occur. *)
Lemma splitFirst_absent (c : N) (p s : jsstring) :
  ~ In c s -> splitFirst (c :: p) s = None.
Proof.
  induction s as [|d s IH]; intros Hnot.
  - reflexivity.
  - cbn [splitFirst].
    destruct (startsWith (c :: p) (d :: s)) eqn:E.
    + apply startsWith_head in E. contradiction.
    + rewrite IH; [reflexivity|]. intros H. apply Hnot. now right.
Qed.

End Builtins.

Lemma not_In_existsb (c : N) (s : jsstring) :
  existsb (N.eqb c) s = false -> ~ In c s.
Proof.
  intros H Hin. assert (E : existsb (N.eqb c) s = true).
  { apply existsb_exists. exists c. split; [exact Hin|apply N.eqb_refl]. }
  congruence.
Qed.

(** Every template is the gateway, the placeholder and a path without ['[']. *)
Lemma template_shape (chainId template : jsstring) :
  In (chainId, template) SUBGRAPH_URLS ->
  isNaN_Number chainId = false /\
  SUBGRAPH_URLS_get chainId = Urls template /\
  exists after,
    template = gateway ++ placeholder ++ after /\
    splitFirst placeholder template = Some (gateway, after) /\
    existsb (N.eqb (ch "[")) after = false.
Proof.
  intros [H|[H|[H|[]]]]; injection H as <- <-;
    (split; [reflexivity|split; [reflexivity|]]);
    eexists; repeat split; vm_compute; reflexivity.
Qed.

Lemma prepareUrl_own (chainId template apiKey : jsstring) :
  In (chainId, template) SUBGRAPH_URLS ->
  prepareUrl chainId apiKey =
  match encodeURIComponent apiKey with
  | Some key => Normal (replace template placeholder key)
  | None => Abrupt URIError
  end.
Proof.
  intros Hin. apply template_shape in Hin as (Hnum & Hget & _).
  unfold prepareUrl. rewrite Hget, Hnum. reflexivity.
Qed.

Lemma prepareUrl_encoded (chainId template apiKey key : jsstring) :
  In (chainId, template) SUBGRAPH_URLS ->
  encodeURIComponent apiKey = Some key ->
  exists after,
    template = gateway ++ placeholder ++ after /\
    prepareUrl chainId apiKey = Normal (gateway ++ key ++ after) /\
    splitFirst placeholder (gateway ++ key ++ after) = None.
Proof.
  intros Hin Henc. rewrite (prepareUrl_own _ _ _ Hin), Henc.
  apply template_shape in Hin as (_ & _ & after & Htpl & Hsplit & Hafter).
  pose proof (encodeURIComponent_safe _ _ Henc) as Hsafe.
  exists after. split; [exact Htpl|]. split.
  - unfold replace. rewrite Hsplit. rewrite GetSubstitution_plain; [reflexivity|].
    apply safe_not_In; [exact Hsafe|reflexivity].
  - apply (splitFirst_absent (ch "[")).
    intros H. apply in_app_or in H as [H|H].
    + revert H. apply not_In_existsb. reflexivity.
    + apply in_app_or in H as [H|H].
      * revert H. apply safe_not_In; [exact Hsafe|reflexivity].
      * revert H. now apply not_In_existsb.
Qed.

Lemma prepareUrl_unsupported (chainId apiKey : jsstring) :
  ~ In chainId supportedChainIds ->
  prepareUrl chainId apiKey = Abrupt (Error (unsupportedMessage chainId)).
Proof.
  intros Hnot. unfold prepareUrl, SUBGRAPH_URLS_get.
  destruct (find (fun kv => JS.eqb (fst kv) chainId) SUBGRAPH_URLS)
    as [[k u]|] eqn:F.
  - apply find_some in F as [Hin Heq]. apply eqb_eq in Heq. simpl in Heq. subst k.
    exfalso. apply Hnot. unfold supportedChainIds.
    change chainId with (fst (chainId, u)). now apply in_map.
  - destruct (existsb (JS.eqb chainId) Object_prototype_keys) eqn:E.
    + apply existsb_exists in E as (k & Hk & Heq). apply eqb_eq in Heq. subst k.
      unfold Object_prototype_keys in Hk. cbn [map In] in Hk.
      repeat (destruct Hk as [<-|Hk]; [reflexivity|]). destruct Hk.
    + reflexivity.
Qed.

(** The claim of C5 fails on an api key with an unpaired surrogate:
    ["1284"] is supported and [prepareUrl] throws a URIError. *)
Lemma prepareUrl_unpaired_surrogate :
  In (lit "1284") supportedChainIds /\
  prepareUrl (lit "1284") [55296%N] = Abrupt URIError /\
  ~ exists url, prepareUrl (lit "1284") [55296%N] = Normal url.
Proof.
  split; [now left|]. split; [reflexivity|].
  intros [url H]. discriminate H.
Qed.

(** C5, amended: for a supported chain id and a well-formed api key,
    [prepareUrl] returns the template of the chain with its one placeholder
    replaced by the encoded key, and no placeholder is left; on an api key
    that is not well formed it throws a URIError; for every other chain id it
    throws an error whose message lists the three supported ids. *)
Theorem prepareUrl_supported_or_rejected (chainId apiKey : jsstring) :
  (forall template,
     In (chainId, template) SUBGRAPH_URLS ->
     (isWellFormed apiKey = true ->
      exists key after,
        encodeURIComponent apiKey = Some key /\
        template = gateway ++ placeholder ++ after /\
        prepareUrl chainId apiKey = Normal (gateway ++ key ++ after) /\
        splitFirst placeholder (gateway ++ key ++ after) = None) /\
     (isWellFormed apiKey = false -> prepareUrl chainId apiKey = Abrupt URIError)) /\
  (~ In chainId supportedChainIds ->
   prepareUrl chainId apiKey = Abrupt (Error (unsupportedMessage chainId)) /\
   forall k, In k supportedChainIds -> Contains (unsupportedMessage chainId) k) /\
  supportedChainIds = [lit "1284"; lit "1285"; lit "8453"].
Proof.
  split; [|split].
  - intros template Hin. split; intros Hwf.
    + destruct (encodeURIComponent apiKey) as [key|] eqn:Henc.
      * destruct (prepareUrl_encoded _ _ _ _ Hin Henc) as (after & H1 & H2 & H3).
        now exists key, after.
      * apply encodeURIComponent_None in Henc. congruence.
    + apply encodeURIComponent_None in Hwf.
      now rewrite (prepareUrl_own _ _ _ Hin), Hwf.
  - intros Hnot. split; [now apply prepareUrl_unsupported|].
    intros k [<-|[<-|[<-|[]]]]; unfold unsupportedMessage.
    + exists (lit "Unsupported or invalid Chain ID provided: " ++ chainId
              ++ lit ". Only the following values are accepted: "),
        (lit ", 1285, 8453").
      rewrite <- !app_assoc. reflexivity.
    + exists (lit "Unsupported or invalid Chain ID provided: " ++ chainId
              ++ lit ". Only the following values are accepted: 1284, "),
        (lit ", 8453").
      rewrite <- !app_assoc. reflexivity.
    + exists (lit "Unsupported or invalid Chain ID provided: " ++ chainId
              ++ lit ". Only the following values are accepted: 1284, 1285, "),
        [].
      rewrite <- !app_assoc. reflexivity.
  - reflexivity.
Qed.

Lemma prepareUrl_supported_or_rejected_witness :
  (exists key after,
     encodeURIComponent (lit "0123abcd") = Some key /\
     lit "https://gateway.thegraph.com/api/[api-key]/subgraphs/id/33ex1ExmYQtwGVwri1AP3oMFPGSce6YbocBP7fWbsBrg"
     = gateway ++ placeholder ++ after /\
     prepareUrl (lit "8453") (lit "0123abcd") = Normal (gateway ++ key ++ after) /\
     splitFirst placeholder (gateway ++ key ++ after) = None) /\
  prepareUrl (lit "1") (lit "0123abcd") = Abrupt (Error (unsupportedMessage (lit "1"))).
Proof.
  split.
  - apply (proj1 (prepareUrl_supported_or_rejected (lit "8453") (lit "0123abcd"))
             _ (or_intror (or_intror (or_introl eq_refl)))).
    reflexivity.
  - apply (proj1 (proj2 (prepareUrl_supported_or_rejected (lit "1") (lit "0123abcd")))).
    vm_compute. intuition discriminate.
Defined.

(** C9: for a supported chain id, a URL that [prepareUrl] returns holds the
    URI-component encoding of the api key in place of the placeholder, never
    the raw key: the inserted text is made of unreserved characters and
    [%XY] escapes, so it has no ['/'] and no ['&'].  A URL is returned for
    every well-formed api key. *)
Theorem prepareUrl_encodes_key (chainId template apiKey : jsstring) :
  In (chainId, template) SUBGRAPH_URLS ->
  (isWellFormed apiKey = true -> exists url, prepareUrl chainId apiKey = Normal url) /\
  (forall url,
     prepareUrl chainId apiKey = Normal url ->
     exists key after,
       encodeURIComponent apiKey = Some key /\
       template = gateway ++ placeholder ++ after /\
       url = gateway ++ key ++ after /\
       forallb isUriSafe key = true /\
       ~ In (ch "/") key /\ ~ In (ch "&") key).
Proof.
  intros Hin. split.
  - intros Hwf. destruct (encodeURIComponent apiKey) as [key|] eqn:Henc.
    + destruct (prepareUrl_encoded _ _ _ _ Hin Henc) as (after & _ & H & _).
      eauto.
    + apply encodeURIComponent_None in Henc. congruence.
  - intros url Hurl. destruct (encodeURIComponent apiKey) as [key|] eqn:Henc.
    + destruct (prepareUrl_encoded _ _ _ _ Hin Henc) as (after & Htpl & H & _).
      pose proof (encodeURIComponent_safe _ _ Henc) as Hsafe.
      exists key, after. repeat split; try assumption.
      * congruence.
      * apply safe_not_In; [exact Hsafe|reflexivity].
      * apply safe_not_In; [exact Hsafe|reflexivity].
    + rewrite (prepareUrl_own _ _ _ Hin), Henc in Hurl. discriminate.
Qed.

Lemma prepareUrl_encodes_key_witness :
  exists key after,
    encodeURIComponent (lit "a/b&c") = Some key /\
    lit "https://gateway.thegraph.com/api/[api-key]/subgraphs/id/DQhrdUHwspQf3hSjDtyfS6uqq9YiKoLF3Ut3U9os2HK"
    = gateway ++ placeholder ++ after /\
    lit "https://gateway.thegraph.com/api/a%2Fb%26c/subgraphs/id/DQhrdUHwspQf3hSjDtyfS6uqq9YiKoLF3Ut3U9os2HK"
    = gateway ++ key ++ after /\
    forallb isUriSafe key = true /\
    ~ In (ch "/") key /\ ~ In (ch "&") key.
Proof.
  apply (proj2 (prepareUrl_encodes_key (lit "1284") _ (lit "a/b&c") (or_introl eq_refl))).
  reflexivity.
Defined.

(** ** The query executor *)

Lemma fetchData_world (w : World) (url : jsstring) (c : number) :
  snd (fetchData w url c) = advance w url c.
Proof.
  unfold fetchData, fetch. cbn [fst snd].
  destruct (ok _); cbn [negb]; [|reflexivity].
  destruct (errors _); [reflexivity|].
  destruct (data _) as [d|]; [|reflexivity].
  destruct (markets d); reflexivity.
Qed.

Lemma fetchData_MarketsOf (w : World) (url : jsstring) (c : number) (ms : list Market) :
  MarketsOf (nextResponse w) ms ->
  fetchData w url c = (Normal ms, advance w url c).
Proof.
  unfold MarketsOf, nextResponse. intros (Hok & Herr & d & Hd & Hm).
  unfold fetchData, fetch. rewrite Hok, Herr, Hd, Hm. reflexivity.
Qed.

Lemma fetchData_Failing (w : World) (url : jsstring) (c : number) :
  Failing (nextResponse w) ->
  fetchData w url c = (Abrupt (responseError (nextResponse w)), advance w url c).
Proof.
  unfold Failing, DataAbsent, responseError, nextResponse, fetchData, fetch.
  intros [Hok|[Herr|[Hd|(d & Hd & Hm)]]].
  - rewrite Hok. reflexivity.
  - destruct (ok _); cbn [negb]; [|reflexivity].
    destruct (errors _); [reflexivity|congruence].
  - destruct (ok _); cbn [negb]; [|reflexivity].
    destruct (errors _); [reflexivity|]. rewrite Hd. reflexivity.
  - destruct (ok _); cbn [negb]; [|reflexivity].
    destruct (errors _); [reflexivity|]. rewrite Hd, Hm. reflexivity.
Qed.

(** Every response either fails or carries a page. *)
Lemma Failing_or_MarketsOf (r : Response) :
  Failing r \/ exists ms, MarketsOf r ms.
Proof.
  unfold Failing, DataAbsent, MarketsOf.
  destruct (ok r); [|now left; left].
  destruct (errors (json r)) as [es|]; [left; right; left; discriminate|].
  destruct (data (json r)) as [d|]; [|left; right; right; now left].
  destruct (markets d) as [ms|] eqn:Hm.
  - right. exists ms. repeat split. exists d. now split.
  - left. right. right. right. exists d. now split.
Qed.

Lemma Failing_not_MarketsOf (r : Response) (ms : list Market) :
  Failing r -> MarketsOf r ms -> False.
Proof.
  unfold Failing, DataAbsent, MarketsOf.
  intros [H|[H|[H|(d & Hd & Hm)]]] (Hok & Herr & d' & Hd' & Hm'); congruence.
Qed.

(** The claim of C2 fails on a response whose [errors] list is empty: the
    status is a success, no error is listed and the markets are there, and
    [fetchData] throws all the same. *)
Lemma fetchData_empty_errors :
  let r := emptyErrorsResponse in
  fst (fetchData (start (fun _ => r)) (lit "https://gateway/") (Int 0))
  = Abrupt (Error (lit "GraphQL errors occurred: see logs for details.")) /\
  ~ (ok r = false \/
     (exists es, errors (json r) = Some es /\ es <> []) \/
     DataAbsent r).
Proof.
  split; [reflexivity|].
  intros [H|[(es & H & Hne)|[H|(d & Hd & Hm)]]].
  - discriminate H.
  - injection H as <-. now apply Hne.
  - discriminate H.
  - injection Hd as <-. discriminate Hm.
Qed.

(** C2, amended: [fetchData] throws exactly when the status is not a success,
    or the response has an [errors] list (an empty one too), or the [data]
    field with its [markets] list is missing; otherwise it returns the
    markets of the response. *)
Theorem fetchData_fails_exactly (w : World) (url : jsstring) (c : number) :
  ((exists e, fst (fetchData w url c) = Abrupt e) <-> Failing (nextResponse w)) /\
  (forall ms, fst (fetchData w url c) = Normal ms <-> MarketsOf (nextResponse w) ms) /\
  (Failing (nextResponse w) \/ exists ms, fst (fetchData w url c) = Normal ms).
Proof.
  assert (Hiff : forall ms,
             fst (fetchData w url c) = Normal ms <-> MarketsOf (nextResponse w) ms).
  { intros ms. split.
    - intros H. destruct (Failing_or_MarketsOf (nextResponse w)) as [F|[ms' M]].
      + rewrite (fetchData_Failing _ _ _ F) in H. discriminate.
      + rewrite (fetchData_MarketsOf _ _ _ _ M) in H. cbn in H.
        injection H as H. subst ms'. exact M.
    - intros M. now rewrite (fetchData_MarketsOf _ _ _ _ M). }
  split; [|split].
  - split.
    + intros [e H]. destruct (Failing_or_MarketsOf (nextResponse w)) as [F|[ms M]];
        [exact F|].
      rewrite (fetchData_MarketsOf _ _ _ _ M) in H. discriminate.
    + intros F. rewrite (fetchData_Failing _ _ _ F). eexists. reflexivity.
  - exact Hiff.
  - destruct (Failing_or_MarketsOf (nextResponse w)) as [F|[ms M]]; [now left|].
    right. exists ms. now apply Hiff.
Qed.

(** ** The pagination loop *)

Section Pagination.

Variables chainId url : jsstring.

Lemma fold_max2_Int (xs : list Z) (a : Z) :
  fold_left max2 (map Int xs) (Int a) = Int (fold_left Z.max xs a).
Proof.
  revert a; induction xs as [|x xs IH]; intros a; [reflexivity|].
  cbn [map fold_left max2]. apply IH.
Qed.

Lemma fold_Zmax_spec (xs : list Z) (a : Z) :
  In (fold_left Z.max xs a) (a :: xs) /\
  Forall (fun x => x <= fold_left Z.max xs a) (a :: xs).
Proof.
  revert a; induction xs as [|x xs IH]; intros a; cbn [fold_left].
  - split; [now left|]. constructor; [lia|constructor].
  - destruct (IH (Z.max a x)) as [Hin Hall]. split.
    + destruct Hin as [Hin|Hin]; [|right; right; exact Hin].
      destruct (Z.max_spec a x) as [[_ E]|[_ E]]; rewrite E in Hin |- *.
      * right. now left.
      * now left.
    + inversion Hall as [|y ys Hy Hys]; subst.
      constructor; [lia|]. constructor; [lia|exact Hys].
Qed.

(** [Math.max] of a non-empty list is its greatest element. *)
Lemma Math_max_spec (xs : list Z) :
  xs <> [] ->
  exists m, Math_max xs = Int m /\ In m xs /\ Forall (fun x => x <= m) xs.
Proof.
  destruct xs as [|x xs]; [congruence|]. intros _.
  exists (fold_left Z.max xs x). unfold Math_max.
  cbn [map fold_left max2]. rewrite fold_max2_Int.
  split; [reflexivity|]. apply fold_Zmax_spec.
Qed.

(** One turn of the loop on a response that carries a page. *)
Lemma while_isMore_page (fuel : nat) (st : LoopState) (w : World) (ms : list Market) :
  isMore st = true ->
  MarketsOf (nextResponse w) ms ->
  while_isMore (S fuel) chainId url st w =
  while_isMore fuel chainId url
    {| allTags := allTags st ++ transformMarketsToTags chainId ms;
       lastTimestamp :=
         if Z.of_nat (length ms) =? 1000 then nextCursor ms else lastTimestamp st;
       isMore := Z.of_nat (length ms) =? 1000 |}
    (advance w url (lastTimestamp st)).
Proof.
  intros Hmore HM. cbn [while_isMore]. rewrite Hmore. cbn [negb].
  rewrite (fetchData_MarketsOf _ _ _ _ HM). reflexivity.
Qed.

(** One turn of the loop on a failing response. *)
Lemma while_isMore_failure (fuel : nat) (st : LoopState) (w : World) :
  isMore st = true ->
  Failing (nextResponse w) ->
  while_isMore (S fuel) chainId url st w =
  (Some (Abrupt (rethrow (responseError (nextResponse w)))),
   advance w url (lastTimestamp st)).
Proof.
  intros Hmore HF. cbn [while_isMore]. rewrite Hmore. cbn [negb].
  rewrite (fetchData_Failing _ _ _ HF). reflexivity.
Qed.

Lemma while_isMore_done (fuel : nat) (st : LoopState) (w : World) :
  isMore st = false ->
  while_isMore fuel chainId url st w = (Some (Normal (allTags st)), w).
Proof.
  intros H. destruct fuel; cbn [while_isMore]; rewrite H; reflexivity.
Qed.

(** The loop over full pages: the tags pile up in order and one request per
    page is sent, each with the cursor left by the page before. *)
Lemma while_isMore_full_pages (pages : list (list Market)) :
  forall (fuel : nat) (st : LoopState) (w : World),
    isMore st = true ->
    Forall fullPage pages ->
    Delivers (transport w) (length (sent w)) pages ->
    while_isMore (length pages + fuel) chainId url st w =
    while_isMore fuel chainId url
      {| allTags := allTags st ++ concat (map (transformMarketsToTags chainId) pages);
         lastTimestamp := cursorAfter (lastTimestamp st) pages;
         isMore := true |}
      {| transport := transport w;
         sent := sent w ++ map (request url) (cursors (lastTimestamp st) pages) |}.
Proof.
  induction pages as [|p pages IH]; intros fuel st w Hmore Hfull Hdel.
  - cbn [length Nat.add map concat cursors cursorAfter fold_left].
    rewrite !app_nil_r. destruct st, w. cbn in *. now subst.
  - inversion Hfull as [|? ? Hp Hrest]; subst.
    destruct Hdel as [HM Hdel].
    cbn [length Nat.add]. rewrite (while_isMore_page _ _ _ p Hmore HM).
    unfold fullPage in Hp. rewrite Hp. cbn [Z.eqb Pos.eqb].
    rewrite IH; [|reflexivity|exact Hrest|].
    + cbn [allTags lastTimestamp transport sent advance map concat cursors
             cursorAfter fold_left].
      rewrite <- !app_assoc. reflexivity.
    + cbn [transport sent advance]. rewrite length_app, Nat.add_1_r. exact Hdel.
Qed.

End Pagination.

Section Runs.

Variables chainId apiKey url : jsstring.
Hypothesis Hurl : prepareUrl chainId apiKey = Normal url.

Lemma Delivers_app (t : Transport) (xs ys : list (list Market)) :
  forall n,
    Delivers t n (xs ++ ys) <->
    Delivers t n xs /\ Delivers t (n + length xs) ys.
Proof.
  induction xs as [|x xs IH]; intros n; cbn [app Delivers length].
  - rewrite Nat.add_0_r. tauto.
  - rewrite IH, Nat.add_succ_r. cbn [Nat.add]. tauto.
Qed.

Lemma cursors_app (xs ys : list (list Market)) :
  forall c, cursors c (xs ++ ys) = cursors c xs ++ cursors (cursorAfter c xs) ys.
Proof.
  induction xs as [|x xs IH]; intros c; [reflexivity|].
  cbn [app cursors cursorAfter fold_left]. now rewrite IH.
Qed.

Lemma length_cursors (pages : list (list Market)) :
  forall c, length (cursors c pages) = length pages.
Proof.
  induction pages as [|p pages IH]; intros c; [reflexivity|].
  cbn [cursors length]. now rewrite IH.
Qed.

Lemma returnTags_start (fuel : nat) (t : Transport) :
  returnTags fuel chainId apiKey (start t) =
  while_isMore fuel chainId url
    {| allTags := []; lastTimestamp := Int 0; isMore := true |} (start t).
Proof. unfold returnTags. now rewrite Hurl. Qed.

(** A run over full pages that ends with a shorter page returns the tags of
    all the pages, in order, after one request per page. *)
Lemma returnTags_pages (t : Transport) (pages : list (list Market))
  (final : list Market) (fuel : nat) :
  Forall fullPage pages ->
  ~ fullPage final ->
  Delivers t 0 (pages ++ [final]) ->
  (length pages < fuel)%nat ->
  returnTags fuel chainId apiKey (start t) =
  (Some (Normal (concat (map (transformMarketsToTags chainId) (pages ++ [final])))),
   {| transport := t;
      sent := map (request url) (cursors (Int 0) (pages ++ [final])) |}).
Proof.
  intros Hfull Hfinal Hdel Hfuel.
  apply Delivers_app in Hdel as [Hdel [Hlast _]]. cbn [Nat.add] in Hlast.
  rewrite returnTags_start.
  replace fuel with (length pages + S (fuel - length pages - 1))%nat by lia.
  rewrite while_isMore_full_pages; [|reflexivity|exact Hfull|exact Hdel].
  cbn [allTags lastTimestamp start transport sent app].
  rewrite (while_isMore_page _ _ _ _ _ final); [|reflexivity|].
  - assert (E : (Z.of_nat (length final) =? 1000) = false)
      by (apply Z.eqb_neq; exact Hfinal).
    rewrite E, while_isMore_done by reflexivity.
    cbn [allTags advance transport sent lastTimestamp].
    rewrite map_app, concat_app, cursors_app, map_app. cbn [map concat cursors].
    now rewrite app_nil_r.
  - unfold nextResponse. cbn [transport sent].
    now rewrite length_map, length_cursors.
Qed.

(** A run over full pages that meets a failing response throws, and what it
    throws is made from that response alone. *)
Lemma returnTags_failure (t : Transport) (pages : list (list Market)) (fuel : nat) :
  Forall fullPage pages ->
  Delivers t 0 pages ->
  Failing (t (length pages)) ->
  (length pages < fuel)%nat ->
  returnTags fuel chainId apiKey (start t) =
  (Some (Abrupt (rethrow (responseError (t (length pages))))),
   {| transport := t;
      sent := map (request url)
                (cursors (Int 0) pages ++ [cursorAfter (Int 0) pages]) |}).
Proof.
  intros Hfull Hdel Hfail Hfuel.
  rewrite returnTags_start.
  replace fuel with (length pages + S (fuel - length pages - 1))%nat by lia.
  rewrite while_isMore_full_pages; [|reflexivity|exact Hfull|exact Hdel].
  cbn [allTags lastTimestamp start transport sent app].
  assert (E : nextResponse
                {| transport := t;
                   sent := map (request url) (cursors (Int 0) pages) |}
              = t (length pages)).
  { unfold nextResponse. cbn [transport sent].
    now rewrite length_map, length_cursors. }
  rewrite while_isMore_failure; [|reflexivity|now rewrite E].
  rewrite E. cbn [advance transport sent lastTimestamp].
  now rewrite map_app.
Qed.

(** A loop that returns has been served a page by every request it sent, and
    returns the tags of these pages. *)
Lemma while_isMore_Normal (fuel : nat) :
  forall (st : LoopState) (w w' : World) (tags : list ContractTag),
    while_isMore fuel chainId url st w = (Some (Normal tags), w') ->
    exists pages,
      Delivers (transport w) (length (sent w)) pages /\
      transport w' = transport w /\
      length (sent w') = (length (sent w) + length pages)%nat /\
      tags = allTags st ++ concat (map (transformMarketsToTags chainId) pages).
Proof.
  induction fuel as [|fuel IH]; intros st w w' tags H.
  - cbn [while_isMore] in H. destruct (isMore st); cbn [negb] in H; [discriminate|].
    injection H as <- <-. exists []. cbn. rewrite Nat.add_0_r, app_nil_r. tauto.
  - destruct (isMore st) eqn:Hmore.
    + destruct (Failing_or_MarketsOf (nextResponse w)) as [F|[ms M]].
      * rewrite (while_isMore_failure _ _ _ _ _ Hmore F) in H. discriminate.
      * rewrite (while_isMore_page _ _ _ _ _ ms Hmore M) in H.
        apply IH in H as (pages & Hdel & Ht & Hlen & Htags).
        cbn [advance transport sent allTags] in *.
        rewrite length_app in *. cbn [length] in *.
        exists (ms :: pages). cbn [Delivers length map concat].
        split; [split; [exact M | now rewrite Nat.add_1_r in Hdel] |].
        split; [exact Ht|]. split; [lia|].
        now rewrite Htags, <- app_assoc.
    + rewrite while_isMore_done in H by exact Hmore.
      injection H as <- <-. exists []. cbn. rewrite Nat.add_0_r, app_nil_r. tauto.
Qed.

Lemma rethrow_responseError (r : Response) :
  rethrow (responseError r) =
  Error (lit "Failed fetching data: " ++ Thrown_toString (responseError r)).
Proof.
  unfold responseError. destruct (negb (ok r)); [reflexivity|].
  destruct (errors (json r)); reflexivity.
Qed.

End Runs.

Lemma MarketsOf_page (ms : list Market) : MarketsOf (page ms) ms.
Proof.
  unfold MarketsOf, page. cbn. repeat split.
  exists {| markets := Some ms |}. now split.
Qed.

Lemma concat_transformMarketsToTags (chainId : jsstring) (pages : list (list Market)) :
  concat (map (transformMarketsToTags chainId) pages)
  = map (makeTag chainId) (filter validMarket (concat pages)).
Proof.
  induction pages as [|p pages IH]; [reflexivity|].
  cbn [map concat].
  now rewrite IH, transformMarketsToTags_filter, filter_app, map_app.
Qed.

(** ** Runs of [returnTags] *)

Example serverError_message :
  responseError serverError = Error (lit "HTTP error: 500").
Proof. reflexivity. Qed.

(** C1: when the responses carry pages of 1000, 1000 and 400 markets,
    [returnTags] sends exactly three requests and returns the tags of the
    first page, then those of the second, then those of the third; the cursor
    of the third request is the greatest [createdTimestamp] of the second
    page. *)
Theorem pagination_three_pages
  (chainId apiKey url : jsstring) (t : Transport) (p1 p2 p3 : list Market)
  (fuel : nat) :
  prepareUrl chainId apiKey = Normal url ->
  Z.of_nat (length p1) = 1000 ->
  Z.of_nat (length p2) = 1000 ->
  Z.of_nat (length p3) = 400 ->
  MarketsOf (t 0%nat) p1 -> MarketsOf (t 1%nat) p2 -> MarketsOf (t 2%nat) p3 ->
  (3 <= fuel)%nat ->
  exists m,
    returnTags fuel chainId apiKey (start t) =
    (Some (Normal (transformMarketsToTags chainId p1
                   ++ transformMarketsToTags chainId p2
                   ++ transformMarketsToTags chainId p3)),
     {| transport := t;
        sent := [request url (Int 0); request url (nextCursor p1);
                 request url (Int m)] |}) /\
    In m (map createdTimestamp p2) /\
    Forall (fun x => x <= m) (map createdTimestamp p2).
Proof.
  intros Hurl H1 H2 H3 M1 M2 M3 Hfuel.
  destruct (Math_max_spec (map createdTimestamp p2)) as (m & Hm & Hin & Hmax).
  { destruct p2; [discriminate H2|discriminate]. }
  exists m. split; [|now split].
  rewrite (returnTags_pages chainId apiKey url Hurl t [p1; p2] p3 fuel).
  - cbn [app map concat cursors]. fold (nextCursor p2) in Hm.
    now rewrite Hm, app_nil_r.
  - now repeat constructor.
  - unfold fullPage. lia.
  - cbn [app Delivers]. tauto.
  - cbn [length]. lia.
Qed.

Lemma pagination_three_pages_witness :
  let t := scripted [page (demoPage 0 1000); page (demoPage 1000 1000);
                     page (demoPage 2000 400)] in
  exists m,
    returnTags 3 (lit "1284") (lit "key") (start t) =
    (Some (Normal (transformMarketsToTags (lit "1284") (demoPage 0 1000)
                   ++ transformMarketsToTags (lit "1284") (demoPage 1000 1000)
                   ++ transformMarketsToTags (lit "1284") (demoPage 2000 400))),
     {| transport := t;
        sent := [request demoUrl (Int 0);
                 request demoUrl (nextCursor (demoPage 0 1000));
                 request demoUrl (Int m)] |}) /\
    In m (map createdTimestamp (demoPage 1000 1000)) /\
    Forall (fun x => x <= m) (map createdTimestamp (demoPage 1000 1000)).
Proof.
  intros t.
  apply (pagination_three_pages (lit "1284") (lit "key") demoUrl t
           (demoPage 0 1000) (demoPage 1000 1000) (demoPage 2000 400) 3).
  - reflexivity.
  - vm_compute. reflexivity.
  - vm_compute. reflexivity.
  - vm_compute. reflexivity.
  - apply MarketsOf_page.
  - apply MarketsOf_page.
  - apply MarketsOf_page.
  - lia.
Defined.

(** C6: on chain ["1284"], when the one page holds a market with symbol
    ["ABC"] and token id ["0xAAA"] and a market with an empty symbol,
    [returnTags] returns one tag: its address is ["eip155:1284:0xAAA"], its
    name tag is ["ABC Token"] and its note holds the symbol and the token
    name. *)
Theorem end_to_end_example
  (apiKey url tokenName : jsstring) (stamp : Z) (other : Market)
  (t : Transport) (fuel : nat) :
  prepareUrl (lit "1284") apiKey = Normal url ->
  symbol (outputToken other) = [] ->
  MarketsOf (t 0%nat)
    [ {| outputToken := {| id := lit "0xAAA"; name := tokenName; symbol := lit "ABC" |};
         createdTimestamp := stamp |};
      other ] ->
  (1 <= fuel)%nat ->
  returnTags fuel (lit "1284") apiKey (start t) =
  (Some (Normal
     [ {| Contract_Address := lit "eip155:1284:0xAAA";
          Public_Name_Tag := lit "ABC Token";
          Project_Name := lit "Moonwell";
          UI_Website_Link := lit "https://moonwell.fi/";
          Public_Note := lit "Moonwell's ABC (" ++ tokenName ++ lit ") token contract." |} ]),
   {| transport := t; sent := [request url (Int 0)] |}).
Proof.
  intros Hurl Hsym HM Hfuel.
  set (abc := {| outputToken := {| id := lit "0xAAA"; name := tokenName;
                                   symbol := lit "ABC" |};
                 createdTimestamp := stamp |}) in *.
  rewrite (returnTags_pages (lit "1284") apiKey url Hurl t [] [abc; other] fuel
             (Forall_nil _)).
  - cbn [app map concat cursors]. rewrite app_nil_r.
    rewrite transformMarketsToTags_filter. cbn [filter].
    unfold validMarket at 2. rewrite Hsym.
    reflexivity.
  - unfold fullPage. cbn [length]. lia.
  - cbn [app Delivers]. split; [exact HM|exact I].
  - cbn [length]. lia.
Qed.

Lemma end_to_end_example_witness :
  let abc := {| outputToken := {| id := lit "0xAAA"; name := lit "A B C"; symbol := lit "ABC" |};
                createdTimestamp := 1700000000 |} in
  let blank := {| outputToken := {| id := lit "0xBBB"; name := lit "Blank"; symbol := [] |};
                  createdTimestamp := 1700000001 |} in
  fst (returnTags 1 (lit "1284") (lit "key") (start (scripted [page [abc; blank]]))) =
  Some (Normal
     [ {| Contract_Address := lit "eip155:1284:0xAAA";
          Public_Name_Tag := lit "ABC Token";
          Project_Name := lit "Moonwell";
          UI_Website_Link := lit "https://moonwell.fi/";
          Public_Note := lit "Moonwell's ABC (A B C) token contract." |} ]).
Proof.
  intros abc blank.
  rewrite (end_to_end_example (lit "key") _ (lit "A B C") 1700000000 blank
             (scripted [page [abc; blank]]) 1 eq_refl eq_refl
             (MarketsOf_page _) (le_n 1)).
  reflexivity.
Defined.

(** C7: a run that meets a failing response, after any number of full pages,
    throws: the tags gathered so far are dropped and the error is made from
    the failing response alone.  A run that returns has been served a page by
    every request it sent and returns the tags of all these pages. *)
Theorem returnTags_all_or_nothing
  (chainId apiKey url : jsstring) (t : Transport) :
  prepareUrl chainId apiKey = Normal url ->
  (forall pages fuel,
     Forall fullPage pages ->
     Delivers t 0 pages ->
     Failing (t (length pages)) ->
     (length pages < fuel)%nat ->
     exists w',
       returnTags fuel chainId apiKey (start t) =
       (Some (Abrupt (Error (lit "Failed fetching data: "
                             ++ Thrown_toString (responseError (t (length pages)))))),
        w') /\
       length (sent w') = S (length pages)) /\
  (forall fuel tags w',
     returnTags fuel chainId apiKey (start t) = (Some (Normal tags), w') ->
     exists pages,
       Delivers t 0 pages /\
       length pages = length (sent w') /\
       tags = concat (map (transformMarketsToTags chainId) pages)).
Proof.
  intros Hurl. split.
  - intros pages fuel Hfull Hdel Hfail Hfuel.
    rewrite (returnTags_failure chainId apiKey url Hurl t pages fuel
               Hfull Hdel Hfail Hfuel).
    rewrite rethrow_responseError. eexists. split; [reflexivity|].
    cbn [sent]. rewrite length_map, length_app, length_cursors. cbn [length]. lia.
  - intros fuel tags w' H.
    rewrite (returnTags_start chainId apiKey url Hurl) in H.
    apply (while_isMore_Normal chainId url) in H as (pages & Hdel & _ & Hlen & Htags).
    exists pages. cbn [start transport sent allTags length app Nat.add] in *.
    split; [exact Hdel|]. split; [now rewrite Hlen|exact Htags].
Qed.

Lemma returnTags_all_or_nothing_witness :
  exists w',
    returnTags 2 (lit "1284") (lit "key")
      (start (scripted [page (demoPage 0 1000); serverError])) =
    (Some (Abrupt (Error (lit "Failed fetching data: Error: HTTP error: 500"))), w') /\
    length (sent w') = 2%nat.
Proof.
  apply (proj1 (returnTags_all_or_nothing (lit "1284") (lit "key") demoUrl
                  (scripted [page (demoPage 0 1000); serverError]) eq_refl)
           [demoPage 0 1000] 2%nat).
  - constructor; [vm_compute; reflexivity|constructor].
  - split; [apply MarketsOf_page|exact I].
  - left. reflexivity.
  - cbn [length]. lia.
Defined.

(** C8: the tags come out in the order of the markets they are made from: the
    result of a run is the list of all the markets of all the pages, page
    after page, without the invalid ones and with each market turned into its
    tag. *)
Theorem returnTags_preserves_order
  (chainId apiKey url : jsstring) (t : Transport)
  (pages : list (list Market)) (final : list Market) (fuel : nat) :
  prepareUrl chainId apiKey = Normal url ->
  Forall fullPage pages ->
  ~ fullPage final ->
  Delivers t 0 (pages ++ [final]) ->
  (length pages < fuel)%nat ->
  fst (returnTags fuel chainId apiKey (start t)) =
  Some (Normal (map (makeTag chainId)
                  (filter validMarket (concat (pages ++ [final]))))).
Proof.
  intros Hurl Hfull Hfinal Hdel Hfuel.
  rewrite (returnTags_pages chainId apiKey url Hurl t pages final fuel
             Hfull Hfinal Hdel Hfuel).
  cbn [fst]. now rewrite concat_transformMarketsToTags.
Qed.

Lemma returnTags_preserves_order_witness :
  let blank := {| outputToken := {| id := lit "0xBBB"; name := lit "Blank"; symbol := lit " " |};
                  createdTimestamp := 1001 |} in
  fst (returnTags 2 (lit "1284") (lit "key")
         (start (scripted [page (demoPage 0 1000);
                           page [blank; demoMarket 1002; demoMarket 1003]]))) =
  Some (Normal (map (makeTag (lit "1284"))
                  (filter validMarket
                     (concat ([demoPage 0 1000]
                              ++ [[blank; demoMarket 1002; demoMarket 1003]]))))).
Proof.
  intros blank.
  apply (returnTags_preserves_order (lit "1284") (lit "key") demoUrl).
  - reflexivity.
  - constructor; [vm_compute; reflexivity|constructor].
  - vm_compute. discriminate.
  - split; [apply MarketsOf_page|]. split; [apply MarketsOf_page|exact I].
  - cbn [length]. lia.
Defined.

(** ** Further properties of truncation and of the tags *)

Lemma substring_from_0_neg (s : jsstring) (j : Z) :
  j <= 0 -> substring s 0 j = [].
Proof.
  intros H. unfold substring.
  rewrite (Z.max_l 0 0) by lia.
  rewrite (Z.min_l 0) by lia.
  rewrite (Z.max_r j 0) by lia.
  rewrite (Z.min_l 0 (Z.of_nat (length s))) by lia.
  reflexivity.
Qed.

Lemma truncateString_long (s : jsstring) (n : Z) :
  3 <= n < Z.of_nat (length s) ->
  truncateString s n = firstn (Z.to_nat (n - 3)) s ++ lit "...".
Proof.
  intros H. unfold truncateString.
  destruct (Z.gtb_spec (Z.of_nat (length s)) n) as [_|Hle]; [|lia].
  now rewrite substring_from_0 by lia.
Qed.

Lemma truncateString_short (s : jsstring) (n : Z) :
  Z.of_nat (length s) <= n -> truncateString s n = s.
Proof.
  intros H. unfold truncateString.
  destruct (Z.gtb_spec (Z.of_nat (length s)) n) as [Hgt|_]; [lia|reflexivity].
Qed.

Lemma truncateString_tiny (s : jsstring) (n : Z) :
  n < 3 -> n < Z.of_nat (length s) -> truncateString s n = lit "...".
Proof.
  intros H3 H. unfold truncateString.
  destruct (Z.gtb_spec (Z.of_nat (length s)) n) as [_|Hle]; [|lia].
  now rewrite substring_from_0_neg by lia.
Qed.

Lemma truncateString_length_le (s : jsstring) (n : Z) :
  3 <= n -> Z.of_nat (length (truncateString s n)) <= n.
Proof.
  intros H3.
  destruct (Z_lt_le_dec n (Z.of_nat (length s))) as [Hlong|Hshort].
  - rewrite truncateString_long by lia.
    rewrite length_app, length_firstn. change (length (lit "...")) with 3%nat. lia.
  - rewrite truncateString_short by lia. lia.
Qed.

(** For every limit of at least 3, a string longer than the limit is cut to
    exactly the limit: its first [maxLength - 3] code units and ["..."]; the
    result of [truncateString] is never longer than the limit and never
    longer than its argument. *)
Theorem truncateString_within_limit (s : jsstring) (maxLength : Z) :
  3 <= maxLength ->
  Z.of_nat (length (truncateString s maxLength)) <= maxLength /\
  (length (truncateString s maxLength) <= length s)%nat /\
  (maxLength < Z.of_nat (length s) ->
   truncateString s maxLength = firstn (Z.to_nat (maxLength - 3)) s ++ lit "..." /\
   Z.of_nat (length (truncateString s maxLength)) = maxLength).
Proof.
  intros H3.
  destruct (Z_lt_le_dec maxLength (Z.of_nat (length s))) as [Hlong|Hshort].
  - rewrite truncateString_long by lia.
    assert (Hlen : Z.of_nat (length (firstn (Z.to_nat (maxLength - 3)) s ++ lit "..."))
                   = maxLength).
    { rewrite length_app, length_firstn. change (length (lit "...")) with 3%nat. lia. }
    repeat split; lia.
  - rewrite truncateString_short by lia. repeat split; lia.
Qed.

Lemma truncateString_within_limit_witness :
  Z.of_nat (length (truncateString (lit "Moonwell") 5)) <= 5 /\
  (length (truncateString (lit "Moonwell") 5) <= length (lit "Moonwell"))%nat /\
  (5 < Z.of_nat (length (lit "Moonwell")) ->
   truncateString (lit "Moonwell") 5
   = firstn (Z.to_nat (5 - 3)) (lit "Moonwell") ++ lit "..." /\
   Z.of_nat (length (truncateString (lit "Moonwell") 5)) = 5).
Proof.
  apply (truncateString_within_limit (lit "Moonwell") 5). lia.
Defined.

(** With a limit below 3, every string longer than the limit becomes ["..."]:
    three code units, more than the limit allows and, for a string of one or
    two code units, more than the string had. *)
Theorem truncateString_limit_below_3 (s : jsstring) (maxLength : Z) :
  maxLength < 3 ->
  maxLength < Z.of_nat (length s) ->
  truncateString s maxLength = lit "..." /\
  maxLength < Z.of_nat (length (truncateString s maxLength)).
Proof.
  intros H3 H. rewrite truncateString_tiny by lia.
  split; [reflexivity|]. change (length (lit "...")) with 3%nat. lia.
Qed.

Lemma truncateString_limit_below_3_witness :
  truncateString (lit "m") 0 = lit "..." /\
  0 < Z.of_nat (length (truncateString (lit "m") 0)).
Proof.
  apply (truncateString_limit_below_3 (lit "m") 0).
  - lia.
  - vm_compute. reflexivity.
Defined.

(** Truncating twice with the same limit is truncating once. *)
Theorem truncateString_idempotent (s : jsstring) (maxLength : Z) :
  truncateString (truncateString s maxLength) maxLength = truncateString s maxLength.
Proof.
  destruct (Z_lt_le_dec maxLength (Z.of_nat (length s))) as [Hlong|Hshort].
  - destruct (Z_lt_le_dec maxLength 3) as [Hlt|Hge].
    + rewrite (truncateString_tiny s) by lia.
      apply truncateString_tiny; [lia|].
      change (length (lit "...")) with 3%nat. lia.
    + pose proof (truncateString_length_le s maxLength Hge) as Hle.
      now apply truncateString_short.
  - rewrite (truncateString_short s) by lia. now apply truncateString_short.
Qed.

Lemma closesTag_app (x y : jsstring) :
  closesTag (x ++ y) = closesTag x || closesTag y.
Proof.
  induction x as [|c x IH]; [reflexivity|].
  cbn [app closesTag]. now destruct (c =? ch ">")%N.
Qed.

Lemma closesTag_absent (y : jsstring) :
  existsb (N.eqb (ch ">")) y = false -> closesTag y = false.
Proof.
  intros H. destruct (closesTag y) eqn:E; [|reflexivity].
  apply closesTag_spec in E. now apply not_In_existsb in H.
Qed.

Lemma containsHtml_absent (y : jsstring) :
  existsb (N.eqb (ch "<")) y = false -> containsHtml y = false.
Proof.
  intros H. destruct (containsHtml y) eqn:E; [|reflexivity].
  apply containsHtml_spec in E as (a & b & c & ->).
  apply not_In_existsb in H. exfalso. apply H.
  apply in_or_app. right. now left.
Qed.

(** Appending text without angle brackets does not create markup. *)
Lemma containsHtml_app_plain (x y : jsstring) :
  existsb (N.eqb (ch "<")) y = false ->
  existsb (N.eqb (ch ">")) y = false ->
  containsHtml (x ++ y) = containsHtml x.
Proof.
  intros Hlt Hgt. induction x as [|c x IH].
  - cbn [app]. now rewrite containsHtml_absent.
  - cbn [app containsHtml].
    now rewrite IH, closesTag_app, (closesTag_absent y Hgt), orb_false_r.
Qed.

(** A part of a string without markup has no markup. *)
Lemma containsHtml_infix (x y z : jsstring) :
  containsHtml (x ++ y ++ z) = false -> containsHtml y = false.
Proof.
  intros H. destruct (containsHtml y) eqn:E; [|reflexivity].
  apply containsHtml_spec in E as (a & b & c & ->).
  assert (Hs : HasAngleBrackets (x ++ (a ++ ch "<" :: b ++ ch ">" :: c) ++ z)).
  { exists (x ++ a), b, (c ++ z).
    rewrite <- !app_assoc. cbn [app]. rewrite <- !app_assoc. reflexivity. }
  apply containsHtml_spec in Hs. congruence.
Qed.

Lemma containsHtml_substring (s : jsstring) (i j : Z) :
  containsHtml s = false -> containsHtml (substring s i j) = false.
Proof.
  intros H. unfold substring.
  match goal with
  | |- containsHtml (firstn ?count (skipn ?from s)) = false =>
      apply (containsHtml_infix (firstn from s) _ (skipn count (skipn from s)));
      now rewrite (firstn_skipn count), (firstn_skipn from)
  end.
Qed.

Lemma containsHtml_truncateString (s : jsstring) (n : Z) :
  containsHtml s = false -> containsHtml (truncateString s n) = false.
Proof.
  intros H. unfold truncateString.
  destruct (Z.of_nat (length s) >? n); [|exact H].
  rewrite containsHtml_app_plain by reflexivity.
  now apply containsHtml_substring.
Qed.

Lemma length_truncateString_44 (s : jsstring) :
  (length (truncateString s 44) <= 44)%nat.
Proof.
  pose proof (truncateString_length_le s 44). lia.
Qed.

(** The name tag of a market has at most 50 code units; for a symbol of more
    than 44 code units it is the first 41 code units of the symbol followed by
    ["... Token"], exactly 50 code units, while the note still holds the whole
    symbol. *)
Theorem makeTag_name_tag_length (chainId : jsstring) (market : Market) :
  (length (Public_Name_Tag (makeTag chainId market)) <= 50)%nat /\
  Contains (Public_Note (makeTag chainId market)) (symbol (outputToken market)) /\
  ((44 < length (symbol (outputToken market)))%nat ->
   Public_Name_Tag (makeTag chainId market)
   = firstn 41 (symbol (outputToken market)) ++ lit "... Token" /\
   length (Public_Name_Tag (makeTag chainId market)) = 50%nat).
Proof.
  cbn [makeTag Public_Name_Tag Public_Note].
  pose proof (length_truncateString_44 (symbol (outputToken market))) as Hle.
  split; [|split].
  - rewrite length_app. change (length (lit " Token")) with 6%nat. lia.
  - exists (lit "Moonwell's "),
      (lit " (" ++ name (outputToken market) ++ lit ") token contract.").
    reflexivity.
  - intros Hlong. rewrite truncateString_long by lia.
    change (Z.to_nat (44 - 3)) with 41%nat.
    rewrite <- app_assoc. split; [reflexivity|].
    rewrite length_app, length_firstn.
    change (length (lit "..." ++ lit " Token")) with 9%nat. lia.
Qed.

Lemma makeTag_name_tag_length_witness :
  let m := {| outputToken :=
                {| id := lit "0xAAA"; name := lit "Long";
                   symbol := lit "A wrapped token symbol that is far too long to fit" |};
              createdTimestamp := 1 |} in
  Public_Name_Tag (makeTag (lit "1284") m)
  = firstn 41 (symbol (outputToken m)) ++ lit "... Token" /\
  length (Public_Name_Tag (makeTag (lit "1284") m)) = 50%nat.
Proof.
  intros m.
  apply (proj2 (proj2 (makeTag_name_tag_length (lit "1284") m))).
  vm_compute. lia.
Defined.

(** No tag that [transformMarketsToTags] returns has markup in its name tag,
    and none has a blank name tag: the name tag itself passes the check that
    the symbol passed. *)
Theorem tags_have_clean_name_tags
  (chainId : jsstring) (ms : list Market) (tag : ContractTag) :
  In tag (transformMarketsToTags chainId ms) ->
  containsInvalidValue (Public_Name_Tag tag) = false.
Proof.
  rewrite transformMarketsToTags_filter, in_map_iff.
  intros (m & <- & Hin). apply filter_In in Hin as [_ Hvalid].
  unfold validMarket in Hvalid. apply negb_true_iff in Hvalid.
  unfold containsInvalidValue in *. apply orb_false_iff in Hvalid as [_ Hhtml].
  cbn [makeTag Public_Name_Tag]. apply orb_false_iff. split.
  - destruct (JS.eqb _ []) eqn:E; [|reflexivity].
    apply trim_empty in E. rewrite forallb_app in E.
    apply andb_true_iff in E as [_ E]. discriminate E.
  - rewrite containsHtml_app_plain by reflexivity.
    now apply containsHtml_truncateString.
Qed.

Lemma tags_have_clean_name_tags_witness :
  containsInvalidValue (Public_Name_Tag (makeTag (lit "1284") markupMarket)) = false.
Proof.
  apply (tags_have_clean_name_tags (lit "1284") [markupMarket]).
  left. reflexivity.
Defined.

Lemma lead_not_trail (c : N) :
  isLeadSurrogate c = true -> isTrailSurrogate c = false.
Proof.
  unfold isLeadSurrogate, isTrailSurrogate, in_range.
  rewrite andb_true_iff, andb_false_iff, !N.leb_le, !N.leb_gt. lia.
Qed.

(** A lead surrogate followed by something else than a trail surrogate makes
    the whole string ill formed, whatever stands before. *)
Lemma isWellFormed_lone_lead (a rest : jsstring) (l d : N) :
  isLeadSurrogate l = true ->
  isTrailSurrogate d = false ->
  isWellFormed (a ++ l :: d :: rest) = false.
Proof.
  intros Hl Hd.
  assert (Hbase : isWellFormed (l :: d :: rest) = false).
  { cbn [isWellFormed]. now rewrite (lead_not_trail l Hl), Hl, Hd. }
  induction a as [| c | c e a IHa IHe] using jsstring_pair_ind.
  - exact Hbase.
  - cbn [app]. change (isWellFormed (c :: l :: d :: rest)) with
      (if isTrailSurrogate c then false
       else if isLeadSurrogate c
            then isTrailSurrogate l && isWellFormed (d :: rest)
            else isWellFormed (l :: d :: rest)).
    rewrite (lead_not_trail l Hl), Hbase.
    now destruct (isTrailSurrogate c), (isLeadSurrogate c).
  - cbn [app] in *. change (isWellFormed (c :: e :: a ++ l :: d :: rest)) with
      (if isTrailSurrogate c then false
       else if isLeadSurrogate c
            then isTrailSurrogate e && isWellFormed (a ++ l :: d :: rest)
            else isWellFormed (e :: a ++ l :: d :: rest)).
    rewrite IHa, IHe, andb_false_r.
    now destruct (isTrailSurrogate c), (isLeadSurrogate c).
Qed.

Lemma firstn_S_nth (k : nat) (s : jsstring) :
  (k < length s)%nat -> firstn (S k) s = firstn k s ++ [nth k s 0%N].
Proof.
  revert s; induction k as [|k IH]; intros [|c s] H; cbn in H; try lia.
  - reflexivity.
  - cbn [firstn nth app]. f_equal. apply IH. lia.
Qed.

(** Truncation counts code units, not characters: when the 41st code unit of
    a symbol of more than 44 code units is the first half of a surrogate
    pair, the pair is cut and the name tag is not a well-formed string. *)
Theorem makeTag_splits_surrogate_pair (chainId : jsstring) (market : Market) :
  (44 < length (symbol (outputToken market)))%nat ->
  isLeadSurrogate (nth 40 (symbol (outputToken market)) 0%N) = true ->
  isWellFormed (Public_Name_Tag (makeTag chainId market)) = false.
Proof.
  intros Hlong Hlead.
  cbn [makeTag Public_Name_Tag]. rewrite truncateString_long by lia.
  change (Z.to_nat (44 - 3)) with 41%nat.
  rewrite firstn_S_nth by lia. rewrite <- !app_assoc.
  change (lit "..." ++ lit " Token") with (lit "... Token").
  change ([nth 40 (symbol (outputToken market)) 0%N] ++ lit "... Token")
    with (nth 40 (symbol (outputToken market)) 0%N :: ch "." :: lit ".. Token").
  now apply isWellFormed_lone_lead.
Qed.

Lemma makeTag_splits_surrogate_pair_witness :
  let s := lit "0123456789012345678901234567890123456789"
           ++ [55357%N; 56832%N] ++ lit "abc" in
  let m := {| outputToken := {| id := lit "0xAAA"; name := lit "Smile"; symbol := s |};
              createdTimestamp := 1 |} in
  isWellFormed s = true /\
  isWellFormed (Public_Name_Tag (makeTag (lit "1284") m)) = false.
Proof.
  intros s m. split; [reflexivity|].
  apply (makeTag_splits_surrogate_pair (lit "1284") m).
  - vm_compute. lia.
  - reflexivity.
Defined.

(** The token id can be read back from the contract address, so markets with
    different token ids get different addresses on the same chain. *)
Theorem makeTag_address_round_trip (chainId : jsstring) (m1 m2 : Market) :
  skipn (length (lit "eip155:" ++ chainId ++ lit ":"))
    (Contract_Address (makeTag chainId m1)) = id (outputToken m1) /\
  (Contract_Address (makeTag chainId m1) = Contract_Address (makeTag chainId m2) ->
   id (outputToken m1) = id (outputToken m2)).
Proof.
  assert (H : forall m,
             skipn (length (lit "eip155:" ++ chainId ++ lit ":"))
               (Contract_Address (makeTag chainId m)) = id (outputToken m)).
  { intros m. cbn [makeTag Contract_Address].
    replace (lit "eip155:" ++ chainId ++ lit ":" ++ id (outputToken m))
      with ((lit "eip155:" ++ chainId ++ lit ":") ++ id (outputToken m))
      by now rewrite <- !app_assoc.
    rewrite skipn_app, skipn_all, Nat.sub_diag. reflexivity. }
  split; [apply H|].
  intros E. rewrite <- (H m1), <- (H m2). now rewrite E.
Qed.

Lemma makeTag_address_round_trip_witness :
  id (outputToken (demoMarket 1)) = id (outputToken (demoMarket 2)).
Proof.
  apply (proj2 (makeTag_address_round_trip (lit "1284") (demoMarket 1) (demoMarket 2))).
  reflexivity.
Defined.

Lemma fold_sortMarket_both (ms : list Market) (valid : list Market) (rej : list jsstring) :
  fold_left sortMarket ms (valid, rej)
  = (valid ++ filter validMarket ms,
     rej ++ map rejectLine (filter (fun m => negb (validMarket m)) ms)).
Proof.
  revert valid rej; induction ms as [|m ms IH]; intros valid rej.
  - cbn. now rewrite !app_nil_r.
  - assert (Hstep : sortMarket (valid, rej) m =
                    if containsInvalidValue (symbol (outputToken m))
                    then (valid, rej ++ [rejectLine m])
                    else (valid ++ [m], rej)) by reflexivity.
    assert (Hv : validMarket m = negb (containsInvalidValue (symbol (outputToken m))))
      by reflexivity.
    cbn [fold_left filter]. rewrite Hstep, !Hv.
    destruct (containsInvalidValue (symbol (outputToken m))); cbn [negb].
    + rewrite IH, <- (app_assoc rej). reflexivity.
    + rewrite IH, <- (app_assoc valid). reflexivity.
Qed.

(** The [forEach] of [transformMarketsToTags] sorts every market into exactly
    one of two lists, in page order: [validMarkets] gets the markets with a
    valid symbol, [rejectedSymbols] one line per other market that names its
    token id and its symbol. *)
Theorem forEach_sorts_every_market (ms : list Market) :
  fold_left sortMarket ms ([], [])
  = (filter validMarket ms,
     map rejectLine (filter (fun m => negb (validMarket m)) ms)) /\
  (length (fst (fold_left sortMarket ms ([], [])))
   + length (snd (fold_left sortMarket ms ([], []))))%nat = length ms.
Proof.
  rewrite fold_sortMarket_both. cbn [app fst snd]. split; [reflexivity|].
  rewrite length_map. induction ms as [|m ms IH]; [reflexivity|].
  cbn [filter]. destruct (validMarket m); cbn [negb length]; lia.
Qed.

(** The tags of a list of markets do not depend on how the list is cut into
    pages: the tags of two lists joined are the tags of the first followed by
    the tags of the second, and there are never more tags than markets. *)
Theorem tags_of_joined_pages (chainId : jsstring) (xs ys : list Market) :
  transformMarketsToTags chainId (xs ++ ys)
  = transformMarketsToTags chainId xs ++ transformMarketsToTags chainId ys /\
  (length (transformMarketsToTags chainId xs) <= length xs)%nat /\
  transformMarketsToTags chainId [] = [].
Proof.
  split; [apply transformMarketsToTags_app|]. split; [|reflexivity].
  rewrite transformMarketsToTags_filter, length_map. apply filter_length_le.
Qed.

(** ** Further properties of the resolver and of the executor *)

(** [fetchData] reports one failure, chosen in a fixed order: a status that is
    not a success hides the body; an [errors] list hides the data, so that a
    response with both markets and errors gives no markets; a missing [data]
    or [markets] field comes last. *)
Theorem fetchData_error_precedence (w : World) (url : jsstring) (c : number) :
  (ok (nextResponse w) = false ->
   fst (fetchData w url c)
   = Abrupt (Error (lit "HTTP error: " ++ Z_toString (status (nextResponse w))))) /\
  (ok (nextResponse w) = true ->
   errors (json (nextResponse w)) <> None ->
   fst (fetchData w url c)
   = Abrupt (Error (lit "GraphQL errors occurred: see logs for details."))) /\
  (ok (nextResponse w) = true ->
   errors (json (nextResponse w)) = None ->
   DataAbsent (nextResponse w) ->
   fst (fetchData w url c) = Abrupt (Error (lit "No markets data found."))).
Proof.
  split; [|split].
  - intros Hok. rewrite fetchData_Failing by now left.
    cbn [fst]. unfold responseError. now rewrite Hok.
  - intros Hok Herr. rewrite fetchData_Failing by (right; now left).
    cbn [fst]. unfold responseError. rewrite Hok. cbn [negb].
    destruct (errors _); [reflexivity|congruence].
  - intros Hok Herr Hd. rewrite fetchData_Failing by (right; now right).
    cbn [fst]. unfold responseError. now rewrite Hok, Herr.
Qed.

Lemma fetchData_error_precedence_witness :
  let both := {| ok := true; status := 200;
                 json := {| data := Some {| markets := Some [demoMarket 1] |};
                            errors := Some [lit "indexing error"] |} |} in
  let bare := {| ok := true; status := 200;
                 json := {| data := None; errors := None |} |} in
  fst (fetchData (start (scripted [serverError])) demoUrl (Int 0))
  = Abrupt (Error (lit "HTTP error: 500")) /\
  fst (fetchData (start (scripted [both])) demoUrl (Int 0))
  = Abrupt (Error (lit "GraphQL errors occurred: see logs for details.")) /\
  fst (fetchData (start (scripted [bare])) demoUrl (Int 0))
  = Abrupt (Error (lit "No markets data found.")).
Proof.
  intros both bare. split; [|split].
  - apply (proj1 (fetchData_error_precedence
                    (start (scripted [serverError])) demoUrl (Int 0))).
    reflexivity.
  - apply (proj1 (proj2 (fetchData_error_precedence
                           (start (scripted [both])) demoUrl (Int 0)))).
    + reflexivity.
    + discriminate.
  - apply (proj2 (proj2 (fetchData_error_precedence
                           (start (scripted [bare])) demoUrl (Int 0)))).
    + reflexivity.
    + reflexivity.
    + left. reflexivity.
Defined.

Lemma supported_dec (chainId : jsstring) :
  {In chainId supportedChainIds} + {~ In chainId supportedChainIds}.
Proof. apply in_dec. apply list_eq_dec. apply N.eq_dec. Qed.

Lemma supported_template (chainId : jsstring) :
  In chainId supportedChainIds ->
  exists template, In (chainId, template) SUBGRAPH_URLS.
Proof.
  unfold supportedChainIds. rewrite in_map_iff.
  intros ([k template] & <- & Hin). now exists template.
Qed.

(** [prepareUrl] returns a URL exactly when the chain id is one of the three
    keys of the table and the api key is a well-formed string. *)
Theorem prepareUrl_succeeds_iff (chainId apiKey : jsstring) :
  (exists url, prepareUrl chainId apiKey = Normal url) <->
  In chainId supportedChainIds /\ isWellFormed apiKey = true.
Proof.
  split.
  - intros [url H]. destruct (supported_dec chainId) as [Hin|Hnot].
    + split; [exact Hin|].
      apply supported_template in Hin as [template Hin].
      rewrite (prepareUrl_own _ _ _ Hin) in H.
      destruct (encodeURIComponent apiKey) eqn:E; [|discriminate].
      destruct (isWellFormed apiKey) eqn:W; [reflexivity|].
      apply encodeURIComponent_None in W. congruence.
    + rewrite (prepareUrl_unsupported _ _ Hnot) in H. discriminate.
  - intros [Hin Hwf]. apply supported_template in Hin as [template Hin].
    destruct (encodeURIComponent apiKey) as [key|] eqn:E.
    + destruct (prepareUrl_encoded _ _ _ _ Hin E) as (after & _ & H & _). eauto.
    + apply encodeURIComponent_None in E. congruence.
Qed.

Lemma template_chars (chainId after : jsstring) :
  In (chainId, gateway ++ placeholder ++ after) SUBGRAPH_URLS ->
  forallb isUrlChar after = true.
Proof.
  intros Hin.
  assert (H : exists rest,
             gateway ++ placeholder ++ after = gateway ++ placeholder ++ rest /\
             forallb isUrlChar rest = true).
  { revert Hin. generalize (gateway ++ placeholder ++ after). intros template.
    intros [H|[H|[H|[]]]]; injection H as _ <-;
      eexists; split; vm_compute; reflexivity. }
  destruct H as (rest & E & Hrest).
  apply app_inv_head in E. apply app_inv_head in E. now subst rest.
Qed.

(** A URL that [prepareUrl] returns is made of unreserved characters, [%],
    [:] and [/] only: it has no white space, no control character and none
    of the brackets of the placeholder. *)
Theorem prepareUrl_url_characters (chainId apiKey url : jsstring) :
  prepareUrl chainId apiKey = Normal url ->
  forallb isUrlChar url = true.
Proof.
  intros H. destruct (supported_dec chainId) as [Hin|Hnot].
  - apply supported_template in Hin as [template Hin].
    destruct (encodeURIComponent apiKey) as [key|] eqn:E.
    + destruct (prepareUrl_encoded _ _ _ _ Hin E) as (after & Htpl & Hurl & _).
      assert (Eu : url = gateway ++ key ++ after) by congruence.
      subst url template.
      rewrite !forallb_app. rewrite (template_chars _ _ Hin).
      pose proof (encodeURIComponent_safe _ _ E) as Hsafe.
      assert (Hkey : forallb isUrlChar key = true).
      { rewrite forallb_forall in *. intros c Hc. unfold isUrlChar.
        now rewrite (Hsafe c Hc). }
      rewrite Hkey. reflexivity.
    + rewrite (prepareUrl_own _ _ _ Hin), E in H. discriminate.
  - rewrite (prepareUrl_unsupported _ _ Hnot) in H. discriminate.
Qed.

Lemma prepareUrl_url_characters_witness :
  forallb isUrlChar
    (lit "https://gateway.thegraph.com/api/a%20b%5B%5D/subgraphs/id/33ex1ExmYQtwGVwri1AP3oMFPGSce6YbocBP7fWbsBrg")
  = true.
Proof.
  apply (prepareUrl_url_characters (lit "8453") (lit "a b[]")).
  reflexivity.
Defined.

(** ** Further properties of the runs *)

(** A first page that does not hold exactly 1000 markets ends the run after
    one request with cursor 0: an empty page gives the empty list and not an
    error, and a page of more than 1000 markets is taken whole and last. *)
Theorem returnTags_single_page
  (chainId apiKey url : jsstring) (t : Transport) (p : list Market) (fuel : nat) :
  prepareUrl chainId apiKey = Normal url ->
  MarketsOf (t 0%nat) p ->
  Z.of_nat (length p) <> 1000 ->
  (1 <= fuel)%nat ->
  returnTags fuel chainId apiKey (start t) =
  (Some (Normal (transformMarketsToTags chainId p)),
   {| transport := t; sent := [request url (Int 0)] |}).
Proof.
  intros Hurl HM Hp Hfuel.
  rewrite (returnTags_pages chainId apiKey url Hurl t [] p fuel (Forall_nil _)).
  - cbn [app map concat cursors]. now rewrite app_nil_r.
  - exact Hp.
  - cbn [app Delivers]. now split.
  - cbn [length]. lia.
Qed.

Lemma returnTags_single_page_witness :
  returnTags 1 (lit "1284") (lit "key") (start (scripted [page []])) =
  (Some (Normal []),
   {| transport := scripted [page []]; sent := [request demoUrl (Int 0)] |}) /\
  fst (returnTags 1 (lit "1284") (lit "key") (start (scripted [page (demoPage 0 1001)])))
  = Some (Normal (transformMarketsToTags (lit "1284") (demoPage 0 1001))).
Proof.
  split.
  - apply (returnTags_single_page (lit "1284") (lit "key") demoUrl
             (scripted [page []]) [] 1 eq_refl (MarketsOf_page _)).
    + vm_compute. discriminate.
    + lia.
  - rewrite (returnTags_single_page (lit "1284") (lit "key") demoUrl
               (scripted [page (demoPage 0 1001)]) (demoPage 0 1001) 1 eq_refl
               (MarketsOf_page _)).
    + reflexivity.
    + vm_compute. discriminate.
    + lia.
Defined.

(** A chain id outside the table makes [returnTags] throw before any request
    is sent, whatever the transport would answer; the error is the one of
    [prepareUrl], not wrapped by the [catch] clause of the loop.  The same
    holds for an api key that is not well formed. *)
Theorem returnTags_rejects_configuration
  (chainId apiKey : jsstring) (w : World) (fuel : nat) :
  (~ In chainId supportedChainIds ->
   returnTags fuel chainId apiKey w
   = (Some (Abrupt (Error (unsupportedMessage chainId))), w)) /\
  (In chainId supportedChainIds ->
   isWellFormed apiKey = false ->
   returnTags fuel chainId apiKey w = (Some (Abrupt URIError), w)).
Proof.
  unfold returnTags. split.
  - intros Hnot. now rewrite (prepareUrl_unsupported _ _ Hnot).
  - intros Hin Hwf. apply supported_template in Hin as [template Hin].
    rewrite (prepareUrl_own _ _ _ Hin).
    apply encodeURIComponent_None in Hwf. now rewrite Hwf.
Qed.

Lemma returnTags_rejects_configuration_witness :
  returnTags 0 (lit "1") (lit "key") (start (scripted [page (demoPage 0 3)]))
  = (Some (Abrupt (Error (unsupportedMessage (lit "1")))),
     start (scripted [page (demoPage 0 3)])) /\
  returnTags 0 (lit "1284") [55296%N] (start (scripted [page (demoPage 0 3)]))
  = (Some (Abrupt URIError), start (scripted [page (demoPage 0 3)])).
Proof.
  split.
  - apply (proj1 (returnTags_rejects_configuration (lit "1") (lit "key")
                    (start (scripted [page (demoPage 0 3)])) 0)).
    vm_compute. intuition discriminate.
  - apply (proj2 (returnTags_rejects_configuration (lit "1284") [55296%N]
                    (start (scripted [page (demoPage 0 3)])) 0)).
    + left. reflexivity.
    + reflexivity.
Defined.

Lemma cursors_nth (pages : list (list Market)) :
  forall (c : number) (k : nat) (p : list Market) (rest : list (list Market)),
    nth_error pages k = Some p ->
    nth_error (cursors c (pages ++ rest)) k <> None /\
    (rest <> [] -> nth_error (cursors c (pages ++ rest)) (S k) = Some (nextCursor p)).
Proof.
  induction pages as [|q pages IH]; intros c k p rest Hk.
  - destruct k; discriminate Hk.
  - destruct k as [|k]; cbn [nth_error app cursors] in *.
    + injection Hk as ->. split; [discriminate|].
      intros Hrest. destruct pages as [|q' pages]; cbn [app cursors nth_error].
      * destruct rest; [contradiction|reflexivity].
      * reflexivity.
    + apply (IH (nextCursor q) k p rest Hk).
Qed.

(** Over any number of full pages and a last shorter one, the loop sends one
    request per page and nothing more; the first cursor is 0 and the cursor
    of each later request is the greatest [createdTimestamp] of the page
    received just before. *)
Theorem returnTags_request_log
  (chainId apiKey url : jsstring) (t : Transport)
  (pages : list (list Market)) (final : list Market) (fuel : nat) :
  prepareUrl chainId apiKey = Normal url ->
  Forall fullPage pages ->
  ~ fullPage final ->
  Delivers t 0 (pages ++ [final]) ->
  (length pages < fuel)%nat ->
  let log := sent (snd (returnTags fuel chainId apiKey (start t))) in
  log = map (request url) (cursors (Int 0) (pages ++ [final])) /\
  length log = S (length pages) /\
  hd_error log = Some (request url (Int 0)) /\
  (forall k p,
     nth_error pages k = Some p ->
     exists m,
       nth_error log (S k) = Some (request url (Int m)) /\
       In m (map createdTimestamp p) /\
       Forall (fun x => x <= m) (map createdTimestamp p)).
Proof.
  intros Hurl Hfull Hfinal Hdel Hfuel log. subst log.
  rewrite (returnTags_pages chainId apiKey url Hurl t pages final fuel
             Hfull Hfinal Hdel Hfuel).
  cbn [snd sent]. split; [reflexivity|]. split; [|split].
  - rewrite length_map, length_cursors, length_app. cbn [length]. lia.
  - destruct pages; reflexivity.
  - intros k p Hk.
    destruct (cursors_nth pages (Int 0) k p [final] Hk) as [_ Hnext].
    specialize (Hnext ltac:(discriminate)).
    destruct (Math_max_spec (map createdTimestamp p)) as (m & Hm & Hin & Hmax).
    { rewrite Forall_forall in Hfull. apply nth_error_In in Hk.
      apply Hfull in Hk. unfold fullPage in Hk.
      destruct p; [discriminate Hk|discriminate]. }
    exists m. split; [|now split].
    rewrite nth_error_map, Hnext. cbn [option_map].
    unfold nextCursor. now rewrite Hm.
Qed.

Lemma returnTags_request_log_witness :
  let t := scripted [page (demoPage 0 1000); page (demoPage 1000 3)] in
  exists m,
    nth_error (sent (snd (returnTags 2 (lit "1284") (lit "key") (start t)))) 1
    = Some (request demoUrl (Int m)) /\
    In m (map createdTimestamp (demoPage 0 1000)) /\
    Forall (fun x => x <= m) (map createdTimestamp (demoPage 0 1000)).
Proof.
  intros t.
  assert (Hfull : Forall fullPage [demoPage 0 1000])
    by (constructor; [vm_compute; reflexivity|constructor]).
  assert (Hshort : ~ fullPage (demoPage 1000 3)) by (vm_compute; discriminate).
  apply (proj2 (proj2 (proj2
           (returnTags_request_log (lit "1284") (lit "key") demoUrl t
              [demoPage 0 1000] (demoPage 1000 3) 2 eq_refl Hfull Hshort
              (conj (MarketsOf_page _) (conj (MarketsOf_page _) I))
              (le_n 2)))) 0%nat (demoPage 0 1000) eq_refl).
Defined.

Section AnyRun.

Variables chainId url : jsstring.

(** What a loop adds to the log: requests to [url], the first of them with
    the cursor of the state; it sends no more requests than it has fuel. *)
Lemma while_isMore_log (fuel : nat) :
  forall (st : LoopState) (w : World),
    exists new,
      sent (snd (while_isMore fuel chainId url st w)) = sent w ++ new /\
      transport (snd (while_isMore fuel chainId url st w)) = transport w /\
      Forall (fun rq => req_url rq = url) new /\
      (length new <= fuel)%nat /\
      (forall rq, hd_error new = Some rq -> req_lastTimestamp rq = lastTimestamp st).
Proof.
  induction fuel as [|fuel IH]; intros st w.
  - exists []. cbn [while_isMore]. destruct (negb (isMore st)); cbn [snd];
      rewrite app_nil_r; repeat split; auto; discriminate.
  - destruct (isMore st) eqn:Hmore.
    + destruct (Failing_or_MarketsOf (nextResponse w)) as [F|[ms M]].
      * rewrite (while_isMore_failure _ _ _ _ _ Hmore F). cbn [snd advance sent transport].
        exists [request url (lastTimestamp st)]. repeat split.
        -- now constructor.
        -- cbn [length]. lia.
        -- intros rq [= <-]. reflexivity.
      * rewrite (while_isMore_page _ _ _ _ _ ms Hmore M).
        destruct (IH {| allTags := allTags st ++ transformMarketsToTags chainId ms;
                        lastTimestamp :=
                          if Z.of_nat (length ms) =? 1000 then nextCursor ms
                          else lastTimestamp st;
                        isMore := Z.of_nat (length ms) =? 1000 |}
                    (advance w url (lastTimestamp st)))
          as (new & Hs & Ht & Hall & Hlen & _).
        exists (request url (lastTimestamp st) :: new).
        rewrite Hs, Ht. cbn [advance sent transport]. rewrite <- app_assoc.
        repeat split.
        -- now constructor.
        -- cbn [length]. lia.
        -- intros rq [= <-]. reflexivity.
    + rewrite while_isMore_done by exact Hmore. exists []. cbn [snd].
      rewrite app_nil_r. repeat split; auto; try discriminate. cbn [length]. lia.
Qed.


(** Against a transport that answers every request with a full page the loop
    uses up any fuel: it sends one request per unit of fuel and never
    returns. *)
Lemma while_isMore_runs_on (t : Transport) :
  (forall n, exists p, fullPage p /\ MarketsOf (t n) p) ->
  forall (fuel : nat) (st : LoopState) (w : World),
    isMore st = true ->
    transport w = t ->
    fst (while_isMore fuel chainId url st w) = None /\
    length (sent (snd (while_isMore fuel chainId url st w)))
    = (length (sent w) + fuel)%nat.
Proof.
  intros Hfull. induction fuel as [|fuel IH]; intros st w Hmore Ht.
  - cbn [while_isMore]. rewrite Hmore. cbn. split; [reflexivity|lia].
  - destruct (Hfull (length (sent w))) as (p & Hp & HM).
    rewrite <- Ht in HM. fold (nextResponse w) in HM.
    rewrite (while_isMore_page _ _ _ _ _ p Hmore HM).
    unfold fullPage in Hp. rewrite Hp. cbn [Z.eqb Pos.eqb].
    destruct (IH {| allTags := allTags st ++ transformMarketsToTags chainId p;
                    lastTimestamp := nextCursor p; isMore := true |}
                (advance w url (lastTimestamp st)) eq_refl Ht) as [H1 H2].
    split; [exact H1|]. rewrite H2. cbn [advance sent].
    rewrite length_app. cbn [length]. lia.
Qed.

End AnyRun.

(** In every run, finished or not, all requests go to the URL that
    [prepareUrl] returned and the first request has cursor 0; the transport
    is left as it was. *)
Theorem returnTags_requests_one_endpoint
  (chainId apiKey url : jsstring) (t : Transport) (fuel : nat) :
  prepareUrl chainId apiKey = Normal url ->
  let w' := snd (returnTags fuel chainId apiKey (start t)) in
  Forall (fun rq => req_url rq = url) (sent w') /\
  (forall rq, hd_error (sent w') = Some rq -> req_lastTimestamp rq = Int 0) /\
  (length (sent w') <= fuel)%nat /\
  transport w' = t.
Proof.
  intros Hurl w'. subst w'. rewrite (returnTags_start chainId apiKey url Hurl).
  destruct (while_isMore_log chainId url fuel
              {| allTags := []; lastTimestamp := Int 0; isMore := true |} (start t))
    as (new & Hs & Ht & Hall & Hlen & Hhd).
  rewrite Hs, Ht. cbn [start sent transport app]. auto.
Qed.

Lemma returnTags_requests_one_endpoint_witness :
  let w' := snd (returnTags 5 (lit "1284") (lit "key")
                   (start (scripted [page (demoPage 0 1000); serverError]))) in
  Forall (fun rq => req_url rq = demoUrl) (sent w') /\
  (forall rq, hd_error (sent w') = Some rq -> req_lastTimestamp rq = Int 0) /\
  (length (sent w') <= 5)%nat /\
  transport w' = scripted [page (demoPage 0 1000); serverError].
Proof.
  apply (returnTags_requests_one_endpoint (lit "1284") (lit "key") demoUrl).
  reflexivity.
Defined.

(** The loop has no bound of its own: against a subgraph that answers every
    request with exactly 1000 markets, [returnTags] keeps asking and does not
    return, however long it is run. *)
Theorem returnTags_never_returns
  (chainId apiKey url : jsstring) (t : Transport) (fuel : nat) :
  prepareUrl chainId apiKey = Normal url ->
  (forall n, exists p, fullPage p /\ MarketsOf (t n) p) ->
  fst (returnTags fuel chainId apiKey (start t)) = None /\
  length (sent (snd (returnTags fuel chainId apiKey (start t)))) = fuel.
Proof.
  intros Hurl Hfull. rewrite (returnTags_start chainId apiKey url Hurl).
  apply (while_isMore_runs_on chainId url t Hfull fuel
           {| allTags := []; lastTimestamp := Int 0; isMore := true |} (start t)
           eq_refl eq_refl).
Qed.

Lemma returnTags_never_returns_witness :
  let t := fun _ : nat => page (demoPage 0 1000) in
  fst (returnTags 7 (lit "1284") (lit "key") (start t)) = None /\
  length (sent (snd (returnTags 7 (lit "1284") (lit "key") (start t)))) = 7%nat.
Proof.
  intros t.
  apply (returnTags_never_returns (lit "1284") (lit "key") demoUrl t 7 eq_refl).
  intros n. exists (demoPage 0 1000).
  split; [vm_compute; reflexivity|apply MarketsOf_page].
Defined.



(** ** The loop against a subgraph that answers the query *)

Section Subgraph.

Lemma pageSize_Z : Z.of_nat pageSize = 1000.
Proof. unfold pageSize. now rewrite Z2Nat.id. Qed.

Lemma pageSize_pos : (0 < pageSize)%nat.
Proof. pose proof pageSize_Z. lia. Qed.

Lemma fullPage_length (p : list Market) : fullPage p <-> length p = pageSize.
Proof. unfold fullPage. pose proof pageSize_Z. lia. Qed.

Lemma filter_cut (c : Z) (old new : list Market) :
  CutAt c old new ->
  filter (createdAfter (Int c)) (old ++ new) = new.
Proof.
  intros [Hold Hnew]. rewrite filter_app.
  assert (E1 : filter (createdAfter (Int c)) old = []).
  { induction Hold as [|m old Hm _ IH]; [reflexivity|].
    cbn [filter createdAfter]. destruct (Z.ltb_spec c (createdTimestamp m)); [lia|exact IH]. }
  assert (E2 : filter (createdAfter (Int c)) new = new).
  { induction Hnew as [|m new Hm _ IH]; [reflexivity|].
    cbn [filter createdAfter]. destruct (Z.ltb_spec c (createdTimestamp m)); [|lia].
    now rewrite IH. }
  now rewrite E1, E2.
Qed.

Lemma answer_cut (c : Z) (old new : list Market) :
  CutAt c old new -> answer (old ++ new) (Int c) = firstn pageSize new.
Proof. intros H. unfold answer. now rewrite filter_cut. Qed.

Lemma StronglySorted_app_lt {A} (R : A -> A -> Prop) (l1 l2 : list A) :
  StronglySorted R (l1 ++ l2) ->
  forall x y, In x l1 -> In y l2 -> R x y.
Proof.
  induction l1 as [|a l1 IH]; intros Hs x y Hx Hy; [destruct Hx|].
  cbn [app] in Hs. apply StronglySorted_inv in Hs as [Hs Hall].
  destruct Hx as [<-|Hx].
  - rewrite Forall_forall in Hall. apply Hall. apply in_or_app. now right.
  - now apply IH.
Qed.

(** A full answer moves the cut: the next cursor is the greatest timestamp of
    the page, the page joins the old markets and the markets after the page
    are the new ones. *)
Lemma next_cut (c : Z) (old new : list Market) :
  Ascending (old ++ new) ->
  CutAt c old new ->
  (pageSize <= length new)%nat ->
  exists m,
    nextCursor (firstn pageSize new) = Int m /\
    CutAt m (old ++ firstn pageSize new) (skipn pageSize new).
Proof.
  intros Hasc [Hold Hnew] Hlen.
  pose proof pageSize_pos as Hpos.
  destruct (Math_max_spec (map createdTimestamp (firstn pageSize new)))
    as (m & Hm & Hin & Hmax).
  { destruct new as [|x new]; [cbn in Hlen; lia|].
    destruct pageSize; [lia|discriminate]. }
  exists m. split; [exact Hm|].
  apply in_map_iff in Hin as (x0 & Hx0 & Hin0).
  assert (Hnew0 : In x0 new).
  { rewrite <- (firstn_skipn pageSize new). apply in_or_app. now left. }
  rewrite Forall_forall in Hold, Hnew, Hmax.
  split; apply Forall_forall; intros y Hy.
  - apply in_app_or in Hy as [Hy|Hy].
    + specialize (Hold y Hy). specialize (Hnew x0 Hnew0). lia.
    + apply Hmax. now apply in_map.
  - rewrite <- Hx0.
    rewrite <- (firstn_skipn pageSize new), app_assoc in Hasc.
    apply (StronglySorted_app_lt _ _ _ Hasc x0 y); [|exact Hy].
    apply in_or_app. now right.
Qed.

(** The pages that answer the loop from a cut hold the new markets, each one
    once and in order. *)
Lemma Answers_concat (pages : list (list Market)) :
  forall (c : Z) (old new final : list Market),
    Ascending (old ++ new) ->
    CutAt c old new ->
    Forall fullPage pages ->
    ~ fullPage final ->
    Answers (old ++ new) (Int c) (pages ++ [final]) ->
    concat (pages ++ [final]) = new.
Proof.
  induction pages as [|p pages IH]; intros c old new final Hasc Hcut Hfull Hfinal Hans.
  - cbn [app Answers concat] in *. destruct Hans as [-> _].
    rewrite (answer_cut _ _ _ Hcut) in *. rewrite app_nil_r.
    rewrite fullPage_length, length_firstn in Hfinal.
    apply firstn_all2. lia.
  - cbn [app Answers concat] in *. destruct Hans as [Hp Hans].
    rewrite (answer_cut _ _ _ Hcut) in Hp. subst p.
    apply Forall_cons_iff in Hfull as [Hp Hrest].
    rewrite fullPage_length, length_firstn in Hp.
    destruct (next_cut c old new Hasc Hcut ltac:(lia)) as (m & Hm & Hcut').
    rewrite Hm in Hans.
    rewrite <- (firstn_skipn pageSize new) in Hans at 1. rewrite app_assoc in Hans.
    rewrite (IH m (old ++ firstn pageSize new) (skipn pageSize new) final);
      [apply firstn_skipn| |exact Hcut'|exact Hrest|exact Hfinal|exact Hans].
    now rewrite <- app_assoc, firstn_skipn.
Qed.

Lemma CutAt_start (db : list Market) :
  Forall (fun m => 0 < createdTimestamp m) db -> CutAt 0 [] db.
Proof. intros H. split; [constructor|exact H]. Qed.

End Subgraph.


Section SubgraphRun.

Variable db : list Market.
Hypothesis Hasc : Ascending db.

(** The loop served by [subgraph db], taken at its request number [n] with
    the markets cut at the cursor of that request: full pages follow as long
    as 1000 new markets are left, then a shorter page. *)
Lemma subgraph_pages (k : nat) :
  forall (new old : list Market) (c : Z) (n : nat),
    (length new <= k)%nat ->
    db = old ++ new ->
    CutAt c old new ->
    cursorAt db n = Int c ->
    exists pages final,
      Forall fullPage pages /\
      ~ fullPage final /\
      Answers db (Int c) (pages ++ [final]) /\
      Delivers (subgraph db) n (pages ++ [final]) /\
      length pages = (length new / pageSize)%nat /\
      cursors (Int c) (pages ++ [final])
      = map (cursorAt db) (seq n (S (length pages))).
Proof.
  pose proof pageSize_pos as Hpos.
  induction k as [|k IH]; intros new old c n Hk Hdb Hcut Hn;
    destruct (Nat.lt_ge_cases (length new) pageSize) as [Hshort|Hlong];
    try (exfalso; lia).
  1, 2:
    exists [], new; cbn [app Answers Delivers cursors length seq map];
    assert (Ha : answer db (Int c) = new)
      by (rewrite Hdb, (answer_cut _ _ _ Hcut); apply firstn_all2; lia);
    (split; [constructor|]); (split; [rewrite fullPage_length; lia|]);
    (split; [now split|]);
    (split; [split; [unfold subgraph; rewrite Hn, Ha; apply MarketsOf_page|exact I]|]);
    (split; [now rewrite Nat.div_small|now rewrite Hn]).
  assert (Hasc' : Ascending (old ++ new)) by now rewrite <- Hdb.
  destruct (next_cut c old new Hasc' Hcut Hlong) as (m & Hm & Hcut').
  assert (Ha : answer db (Int c) = firstn pageSize new)
    by (rewrite Hdb; apply (answer_cut _ _ _ Hcut)).
  assert (Hn' : cursorAt db (S n) = Int m).
  { cbn [cursorAt]. now rewrite Hn, Ha. }
  destruct (IH (skipn pageSize new) (old ++ firstn pageSize new) m (S n))
    as (pages & final & Hfull & Hfinal & Hans & Hdel & Hlen & Hcur).
  - rewrite length_skipn. lia.
  - now rewrite <- app_assoc, firstn_skipn.
  - exact Hcut'.
  - exact Hn'.
  - exists (firstn pageSize new :: pages), final.
    cbn [app Answers Delivers cursors length].
    split; [constructor; [rewrite fullPage_length, length_firstn; lia|exact Hfull]|].
    split; [exact Hfinal|].
    split; [split; [now rewrite Ha|now rewrite Hm]|].
    split; [split; [unfold subgraph; rewrite Hn, Ha; apply MarketsOf_page|exact Hdel]|].
    split.
    + rewrite Hlen, length_skipn.
      replace (length new) with (length new - pageSize + 1 * pageSize)%nat at 2 by lia.
      rewrite Nat.div_add by lia. lia.
    + rewrite Hm, Hcur. change (seq n (S (S (length pages))))
        with (n :: seq (S n) (S (length pages))).
      cbn [map]. now rewrite Hn.
Qed.

End SubgraphRun.

(** Against a subgraph that answers the query and whose markets have distinct
    positive timestamps, the loop ends after [length db / 1000 + 1] requests
    and returns one tag for each valid market, in creation order.  Each
    request carries the cursor the subgraph answered. *)
Theorem returnTags_terminates_on_subgraph
  (chainId apiKey url : jsstring) (db : list Market) (fuel : nat) :
  prepareUrl chainId apiKey = Normal url ->
  Ascending db ->
  Forall (fun m => 0 < createdTimestamp m) db ->
  (length db / pageSize < fuel)%nat ->
  returnTags fuel chainId apiKey (start (subgraph db)) =
  (Some (Normal (map (makeTag chainId) (filter validMarket db))),
   {| transport := subgraph db;
      sent := map (fun n => request url (cursorAt db n))
                (seq 0 (S (length db / pageSize))) |}).
Proof.
  intros Hurl Hasc Hpos Hfuel.
  destruct (subgraph_pages db Hasc (length db) db [] 0 0%nat (le_n _) eq_refl
              (CutAt_start db Hpos) eq_refl)
    as (pages & final & Hfull & Hfinal & Hans & Hdel & Hlen & Hcur).
  rewrite (returnTags_pages chainId apiKey url Hurl (subgraph db) pages final fuel
             Hfull Hfinal Hdel) by lia.
  rewrite concat_transformMarketsToTags.
  rewrite (Answers_concat pages 0 [] db final Hasc (CutAt_start db Hpos)
             Hfull Hfinal Hans).
  now rewrite Hcur, map_map, Hlen.
Qed.

Lemma demoPage_Ascending (from : Z) (n : nat) : Ascending (demoPage from n).
Proof.
  unfold demoPage, Ascending. generalize 1%nat as a.
  induction n as [|n IH]; intros a; cbn [seq map]; constructor.
  - apply IH.
  - apply Forall_forall. intros m Hm. apply in_map_iff in Hm as (k & <- & Hk).
    apply in_seq in Hk. cbn [demoMarket createdTimestamp]. lia.
Qed.

Lemma demoPage_positive (from : Z) (n : nat) :
  0 <= from -> Forall (fun m => 0 < createdTimestamp m) (demoPage from n).
Proof.
  intros H. apply Forall_forall. intros m Hm.
  apply in_map_iff in Hm as (k & <- & Hk). apply in_seq in Hk.
  cbn [demoMarket createdTimestamp]. lia.
Qed.

Lemma returnTags_terminates_on_subgraph_witness :
  let db := demoPage 0 2400 in
  returnTags 3 (lit "1284") (lit "key") (start (subgraph db)) =
  (Some (Normal (map (makeTag (lit "1284")) (filter validMarket db))),
   {| transport := subgraph db;
      sent := map (fun n => request demoUrl (cursorAt db n))
                (seq 0 (S (length db / pageSize))) |}).
Proof.
  intros db.
  apply (returnTags_terminates_on_subgraph (lit "1284") (lit "key") demoUrl db 3).
  - reflexivity.
  - apply demoPage_Ascending.
  - apply demoPage_positive. lia.
  - vm_compute. lia.
Defined.


Section HonestPages.

Lemma number_lt_trans (a b c : number) :
  number_lt a b -> number_lt b c -> number_lt a c.
Proof. destruct a, b, c; cbn; try tauto; lia. Qed.


(** The cursor left by a full page of markets created after [c] is after
    [c]. *)
Lemma nextCursor_after (c : number) (p : list Market) :
  fullPage p ->
  Forall (fun m => createdAfter c m = true) p ->
  number_lt c (nextCursor p).
Proof.
  intros Hfull Hall.
  destruct (Math_max_spec (map createdTimestamp p)) as (m & Hm & Hin & _).
  { unfold fullPage in Hfull. destruct p; [discriminate Hfull|discriminate]. }
  unfold nextCursor. rewrite Hm.
  apply in_map_iff in Hin as (x & <- & Hx).
  rewrite Forall_forall in Hall. specialize (Hall x Hx).
  destruct c as [|z]; cbn in *; [exact I|]. now apply Z.ltb_lt.
Qed.

Lemma cursors_all_above (pages : list (list Market)) :
  forall (c0 c : number) (final : list Market),
    Forall fullPage pages ->
    Honest c pages ->
    number_lt c0 c ->
    Forall (number_lt c0) (cursors c (pages ++ [final])).
Proof.
  induction pages as [|p pages IH]; intros c0 c final Hfull Hhon Hlt;
    cbn [app cursors].
  - now repeat constructor.
  - apply Forall_cons_iff in Hfull as [Hp Hfull]. destruct Hhon as [Hall Hhon].
    constructor; [exact Hlt|].
    apply IH; [exact Hfull|exact Hhon|].
    apply (number_lt_trans _ c); [exact Hlt|now apply nextCursor_after].
Qed.

Lemma cursors_sorted (pages : list (list Market)) :
  forall (c : number) (final : list Market),
    Forall fullPage pages ->
    Honest c pages ->
    StronglySorted number_lt (cursors c (pages ++ [final])).
Proof.
  induction pages as [|p pages IH]; intros c final Hfull Hhon; cbn [app cursors].
  - repeat constructor.
  - apply Forall_cons_iff in Hfull as [Hp Hfull]. destruct Hhon as [Hall Hhon].
    constructor; [now apply IH|].
    apply cursors_all_above; [exact Hfull|exact Hhon|now apply nextCursor_after].
Qed.




End HonestPages.

(** When every page holds only markets created after the cursor that was sent
    for it, as the query asks, the cursors of the requests of a run increase
    strictly from one request to the next. *)
Theorem returnTags_cursors_increase
  (chainId apiKey url : jsstring) (t : Transport)
  (pages : list (list Market)) (final : list Market) (fuel : nat) :
  prepareUrl chainId apiKey = Normal url ->
  Forall fullPage pages ->
  ~ fullPage final ->
  Delivers t 0 (pages ++ [final]) ->
  Honest (Int 0) pages ->
  (length pages < fuel)%nat ->
  StronglySorted number_lt
    (map req_lastTimestamp (sent (snd (returnTags fuel chainId apiKey (start t))))).
Proof.
  intros Hurl Hfull Hfinal Hdel Hhon Hfuel.
  rewrite (returnTags_pages chainId apiKey url Hurl t pages final fuel
             Hfull Hfinal Hdel Hfuel).
  cbn [snd sent]. rewrite map_map. cbn [request req_lastTimestamp].
  rewrite map_id. now apply cursors_sorted.
Qed.

Lemma returnTags_cursors_increase_witness :
  let t := scripted [page (demoPage 0 1000); page (demoPage 1000 1000);
                     page (demoPage 2000 400)] in
  StronglySorted number_lt
    (map req_lastTimestamp
       (sent (snd (returnTags 3 (lit "1284") (lit "key") (start t))))).
Proof.
  intros t.
  apply (returnTags_cursors_increase (lit "1284") (lit "key") demoUrl t
           [demoPage 0 1000; demoPage 1000 1000] (demoPage 2000 400) 3).
  - reflexivity.
  - repeat constructor; vm_compute; reflexivity.
  - vm_compute. discriminate.
  - exact (conj (MarketsOf_page _) (conj (MarketsOf_page _) (conj (MarketsOf_page _) I))).
  - repeat split; apply Forall_forall; intros m Hm;
      apply in_map_iff in Hm as (k & <- & Hk); apply in_seq in Hk.
    + cbn [createdAfter demoMarket createdTimestamp]. apply Z.ltb_lt. lia.
    + replace (nextCursor (demoPage 0 1000)) with (Int 1000)
        by (vm_compute; reflexivity).
      cbn [createdAfter demoMarket createdTimestamp]. apply Z.ltb_lt. lia.
  - cbn [length]. lia.
Defined.


